(** * exploit-finder: the Google sites finder

    A shallow embedding of [src/expliot_finder/scraper/core/sites_finder.py]
    (class [GoogleSitesFinder]) and of the parts of CPython's [urllib.parse]
    and UTF-8 codec that the class calls, followed by the properties of the
    query construction, the link filter and the search pipeline.

    Data model.
    - A Python [str] is a sequence of code points: [list Z], each code point
      in [0, 0x10FFFF].  Lone surrogates are legal members of a [str].
    - A Python [bytes] is a [list Z] with every element in [0, 255].
    - A raised exception is the [Raise] branch of [result].
    - The HTTP transport ([AsyncHTMLSession().get]) is a parameter of
      [search_for_pages]: it either raises or returns a response. *)

From Stdlib Require Import ZArith Lia String Ascii.
From stdpp Require Import base list.

Local Open Scope Z_scope.

(** ** Strings *)

Definition str := list Z.
Definition bytes := list Z.

(** An ASCII literal as a [str]. *)
Definition lit (s : string) : str :=
  map (fun a => Z.of_N (N_of_ascii a)) (list_ascii_of_string s).

Definition is_code_point (c : Z) : Prop := 0 <= c <= 0x10FFFF.
Definition is_surrogate (c : Z) : bool := (0xD800 <=? c) && (c <=? 0xDFFF).

(** A Unicode scalar value: a code point that is not a surrogate.  Text that
    can be encoded (and every printable character) consists of these. *)
Definition is_scalar (c : Z) : Prop :=
  is_code_point c /\ is_surrogate c = false.
Definition valid_text (s : str) : Prop := Forall is_scalar s.

Fixpoint str_eqb (a b : str) : bool :=
  match a, b with
  | [], [] => true
  | x :: a', y :: b' => (x =? y) && str_eqb a' b'
  | _, _ => false
  end.

(** [self.startswith(prefix)]: false when [prefix] is longer than [self],
    otherwise the slice [self[0:len(prefix)]] is compared with [prefix]. *)
Definition startswith (self prefix : str) : bool :=
  if (length self <? length prefix)%nat then false
  else str_eqb (take (length prefix) self) prefix.

(** ** Exceptions and results *)

Inductive exn : Type :=
  | UnicodeEncodeError (position : nat)
  | UnicodeDecodeError
  | TypeError
  | ConnectionError
  | Timeout
  | ParserError.

Inductive result (A : Type) : Type :=
  | Return (a : A)
  | Raise (e : exn).
Arguments Return {A} a.
Arguments Raise {A} e.

Definition bind {A B} (r : result A) (k : A -> result B) : result B :=
  match r with
  | Return a => k a
  | Raise e => Raise e
  end.

Notation "'let*' x := r 'in' k" := (bind r (fun x => k))
  (at level 10, x name, r at level 100, k at level 200).

(** ** The UTF-8 codec ([str.encode], [bytes.decode])

    CPython's encoder writes one to four bytes per code point with shifts
    and masks; under the [strict] handler a surrogate raises
    [UnicodeEncodeError] at its position. *)
Definition utf8_encode_char (ch : Z) : option bytes :=
  if ch <? 0x80 then Some [ch]
  else if ch <? 0x800 then
    Some [Z.lor 0xC0 (Z.shiftr ch 6); Z.lor 0x80 (Z.land ch 0x3F)]
  else if is_surrogate ch then None
  else if ch <? 0x10000 then
    Some [Z.lor 0xE0 (Z.shiftr ch 12);
          Z.lor 0x80 (Z.land (Z.shiftr ch 6) 0x3F);
          Z.lor 0x80 (Z.land ch 0x3F)]
  else
    Some [Z.lor 0xF0 (Z.shiftr ch 18);
          Z.lor 0x80 (Z.land (Z.shiftr ch 12) 0x3F);
          Z.lor 0x80 (Z.land (Z.shiftr ch 6) 0x3F);
          Z.lor 0x80 (Z.land ch 0x3F)].

Fixpoint utf8_encode_from (pos : nat) (s : str) : result bytes :=
  match s with
  | [] => Return []
  | ch :: rest =>
      match utf8_encode_char ch with
      | None => Raise (UnicodeEncodeError pos)
      | Some bs =>
          let* tl := utf8_encode_from (S pos) rest in
          Return (bs ++ tl)
      end
  end.

(** [string.encode('utf-8', 'strict')] *)
Definition str_encode (s : str) : result bytes := utf8_encode_from 0 s.

Inductive errors_mode : Type := Strict | Replace.

Definition is_continuation (b : Z) : bool := (0x80 <=? b) && (b <? 0xC0).

(** What the decoder does with a malformed sequence: [strict] raises,
    [replace] emits U+FFFD and resumes after the offending bytes. *)
Definition on_error (errors : errors_mode) (resume : result str) : result str :=
  match errors with
  | Strict => Raise UnicodeDecodeError
  | Replace => let* r := resume in Return (0xFFFD :: r)
  end.

(** CPython's decoder.  [s1], [s2], [s3] are the input after one, two and
    three bytes; an invalid start byte or continuation resumes right after
    the bytes already accepted, a truncated sequence ends the input. *)
Fixpoint utf8_decode (errors : errors_mode) (s : bytes) : result str :=
  match s with
  | [] => Return []
  | ch :: s1 =>
    if ch <? 0x80 then
      let* r := utf8_decode errors s1 in Return (ch :: r)
    else if ch <? 0xE0 then
      if ch <? 0xC2 then on_error errors (utf8_decode errors s1)
      else
        match s1 with
        | [] => on_error errors (Return [])
        | ch2 :: s2 =>
          if negb (is_continuation ch2)
          then on_error errors (utf8_decode errors s1)
          else
            let* r := utf8_decode errors s2 in
            Return (Z.shiftl ch 6 + ch2 - (Z.shiftl 0xC0 6 + 0x80) :: r)
        end
    else if ch <? 0xF0 then
      match s1 with
      | [] => on_error errors (Return [])
      | ch2 :: s2 =>
        match s2 with
        | [] =>
          if negb (is_continuation ch2)
             || (if ch2 <? 0xA0 then ch =? 0xE0 else ch =? 0xED)
          then on_error errors (utf8_decode errors s1)
          else on_error errors (Return [])
        | ch3 :: s3 =>
          if negb (is_continuation ch2)
          then on_error errors (utf8_decode errors s1)
          else if (ch =? 0xE0) && (ch2 <? 0xA0)
          then on_error errors (utf8_decode errors s1)
          else if (ch =? 0xED) && (0xA0 <=? ch2)
          then on_error errors (utf8_decode errors s1)
          else if negb (is_continuation ch3)
          then on_error errors (utf8_decode errors s2)
          else
            let* r := utf8_decode errors s3 in
            Return (Z.shiftl ch 12 + Z.shiftl ch2 6 + ch3
                    - (Z.shiftl 0xE0 12 + Z.shiftl 0x80 6 + 0x80) :: r)
        end
      end
    else if ch <? 0xF5 then
      match s1 with
      | [] => on_error errors (Return [])
      | ch2 :: s2 =>
        if negb (is_continuation ch2)
           || (if ch2 <? 0x90 then ch =? 0xF0 else ch =? 0xF4)
        then on_error errors (utf8_decode errors s1)
        else
          match s2 with
          | [] => on_error errors (Return [])
          | ch3 :: s3 =>
            if negb (is_continuation ch3)
            then on_error errors (utf8_decode errors s2)
            else
              match s3 with
              | [] => on_error errors (Return [])
              | ch4 :: s4 =>
                if negb (is_continuation ch4)
                then on_error errors (utf8_decode errors s3)
                else
                  let* r := utf8_decode errors s4 in
                  Return (Z.shiftl ch 18 + Z.shiftl ch2 12 + Z.shiftl ch3 6 + ch4
                          - (Z.shiftl 0xF0 18 + Z.shiftl 0x80 12
                             + Z.shiftl 0x80 6 + 0x80) :: r)
              end
          end
      end
    else on_error errors (utf8_decode errors s1)
  end.

(** ** [urllib.parse]: quoting *)

Definition _ALWAYS_SAFE : bytes :=
  lit "ABCDEFGHIJKLMNOPQRSTUVWXYZabcdefghijklmnopqrstuvwxyz0123456789_.-~".

(** [b in chars] *)
Definition contains (chars : list Z) (b : Z) : bool := existsb (Z.eqb b) chars.

(** ['%{:02X}'.format(b)] for a byte [b] *)
Definition format_02X (b : Z) : str :=
  let digits := lit "0123456789ABCDEF" in
  [37; nth (Z.to_nat (b / 16)) digits 0; nth (Z.to_nat (b mod 16)) digits 0].

(** [_Quoter(safe)[b]]: [chr(b) if b in self.safe else '%{:02X}'.format(b)],
    where [self.safe] is [_ALWAYS_SAFE.union(safe)]. *)
Definition quoter (safe : bytes) (b : Z) : str :=
  if contains (_ALWAYS_SAFE ++ safe) b then [b] else format_02X b.

(** [bs.rstrip(chars)] *)
Fixpoint rstrip (bs chars : bytes) : bytes :=
  match bs with
  | [] => []
  | b :: rest =>
      match rstrip rest chars with
      | [] => if contains chars b then [] else [b]
      | kept => b :: kept
      end
  end.

(** [safe.encode('ascii', 'ignore')] *)
Definition encode_ascii_ignore (safe : str) : bytes :=
  List.filter (fun c => c <? 0x80) safe.

Definition quote_from_bytes (bs : bytes) (safe : str) : result str :=
  match bs with
  | [] => Return []
  | _ =>
      let safe := encode_ascii_ignore safe in
      match rstrip bs (_ALWAYS_SAFE ++ safe) with
      | [] => utf8_decode Strict bs
      | _ => Return (concat (map (quoter safe) bs))
      end
  end.

Definition quote (string : str) (safe : str) : result str :=
  match string with
  | [] => Return string
  | _ =>
      let* bs := str_encode string in
      quote_from_bytes bs safe
  end.

(** [string.replace(old, new)] for one-character [old] and [new] *)
Definition replace (old new : Z) (string : str) : str :=
  map (fun c => if c =? old then new else c) string.

Definition quote_plus (string : str) : result str :=
  let safe : str := [] in
  if negb (contains string 32) then quote string safe
  else
    let space := lit " " in
    let* quoted := quote string (safe ++ space) in
    Return (replace 32 43 quoted).

(** ** [urllib.parse]: unquoting *)

(** [bs.split(sep)] for a one-byte separator *)
Fixpoint split (sep : Z) (bs : bytes) : list bytes :=
  match bs with
  | [] => [[]]
  | b :: rest =>
      let parts := split sep rest in
      if b =? sep then [] :: parts
      else match parts with
           | p :: ps => (b :: p) :: ps
           | [] => [[b]]
           end
  end.

Definition hex_value (c : Z) : option Z :=
  if (48 <=? c) && (c <=? 57) then Some (c - 48)
  else if (65 <=? c) && (c <=? 70) then Some (c - 55)
  else if (97 <=? c) && (c <=? 102) then Some (c - 87)
  else None.

(** The table [_hextobyte]: two hex digits (either case) to a byte. *)
Definition _hextobyte (key : bytes) : option Z :=
  match key with
  | [a; b] =>
      match hex_value a, hex_value b with
      | Some x, Some y => Some (16 * x + y)
      | _, _ => None
      end
  | _ => None
  end.

Definition unquote_item (item : bytes) : bytes :=
  match _hextobyte (take 2 item) with
  | Some b => b :: drop 2 item
  | None => 37 :: item
  end.

(** [unquote_to_bytes] on an ASCII [str], whose UTF-8 encoding is itself. *)
Definition unquote_to_bytes (string : bytes) : bytes :=
  match string with
  | [] => []
  | _ =>
      match split 37 string with
      | [] | [_] => string
      | first :: items => first ++ concat (map unquote_item items)
      end
  end.

(** One ASCII run of [unquote]. *)
Definition unquote_run (errors : errors_mode) (run : str) : result str :=
  match run with
  | [] => Return []
  | _ => utf8_decode errors (unquote_to_bytes run)
  end.

(** The ASCII runs (matches of [[\x00-\x7f]+]) are unquoted and decoded,
    the text between them is kept; [run] is the ASCII run being read. *)
Fixpoint unquote_parts (errors : errors_mode) (string run : str) : result str :=
  match string with
  | [] => unquote_run errors run
  | c :: rest =>
      if c <? 0x80 then unquote_parts errors rest (run ++ [c])
      else
        let* done := unquote_run errors run in
        let* tl := unquote_parts errors rest [] in
        Return (done ++ c :: tl)
  end.

Definition unquote (string : str) : result str :=
  if negb (contains string 37) then Return string
  else unquote_parts Replace string [].

Definition unquote_plus (string : str) : result str :=
  unquote (replace 43 32 string).

(** ** The link filter

    [[url for url in urls if url.startswith(site)]] *)
Fixpoint filter_extracted_urls (site : str) (urls : list str) : list str :=
  match urls with
  | [] => []
  | url :: rest =>
      if startswith url site
      then url :: filter_extracted_urls site rest
      else filter_extracted_urls site rest
  end.


(** ** The class [GoogleSitesFinder] *)

(** [__slots__ = ("_search_query",)] *)
Record GoogleSitesFinder : Type := { _search_query : str }.

Definition base_query : str := lit "https://www.google.co.uk/search?q=".

(** The setter of the property [search_query]: the new state of the
    instance, or the exception that left it as it was. *)
Definition set_search_query (service_version : str)
  : result GoogleSitesFinder :=
  let* quoted := quote_plus service_version in
  Return {| _search_query := base_query ++ quoted |}.

(** The getter of the property [search_query]. *)
Definition search_query (self : GoogleSitesFinder) : str :=
  _search_query self ++ lit " exploit".

(** [self.search_query = service_version] *)
Definition __init__ (service_version : str) : result GoogleSitesFinder :=
  set_search_query service_version.

(** [vars(self)] needs a [__dict__], which a class with [__slots__] lacks. *)
Definition __repr__ (self : GoogleSitesFinder) : result str := Raise TypeError.

(** What the transport hands back: the status code is carried but never
    read by this module; [absolute_links] is the set
    [response.html.absolute_links] in its iteration order, or the exception
    raised while the document is parsed. *)
Record HTMLResponse : Type := {
  status_code : Z;
  absolute_links : result (list str)
}.

Definition __extract_urls (response : HTMLResponse) : result (list str) :=
  absolute_links response.

Section Transport.

(** [AsyncHTMLSession().get]: raises on a network failure, returns the
    response otherwise, whatever its status. *)
Variable get : str -> result HTMLResponse.

Definition __send_search_query (query : str) : result HTMLResponse :=
  get query.

Definition search_for_pages (self : GoogleSitesFinder) (site : str)
  : result (list str) :=
  let* response := __send_search_query (search_query self) in
  let* urls := __extract_urls response in
  Return (filter_extracted_urls site urls).

(** The public operations on an instance, and what a call returns. *)
Inductive method : Type :=
  | Repr
  | GetSearchQuery
  | SetSearchQuery (service_version : str)
  | FilterExtractedUrls (site : str) (urls : list str)
  | SearchForPages (site : str).

Inductive value : Type :=
  | VNone
  | VStr (s : str)
  | VList (l : list str).

(** A call: the outcome and the instance afterwards. *)
Definition call (m : method) (self : GoogleSitesFinder)
  : result value * GoogleSitesFinder :=
  match m with
  | Repr => (let* s := __repr__ self in Return (VStr s), self)
  | GetSearchQuery => (Return (VStr (search_query self)), self)
  | SetSearchQuery v =>
      match set_search_query v with
      | Return self' => (Return VNone, self')
      | Raise e => (Raise e, self)
      end
  | FilterExtractedUrls site urls =>
      (Return (VList (filter_extracted_urls site urls)), self)
  | SearchForPages site =>
      (let* l := search_for_pages self site in Return (VList l), self)
  end.

End Transport.

(** A run of public calls on one instance, left to right. *)
Fixpoint run (get : str -> result HTMLResponse) (ms : list method)
  (self : GoogleSitesFinder) : GoogleSitesFinder :=
  match ms with
  | [] => self
  | m :: rest => run get rest (snd (call get m self))
  end.

Definition is_setter (m : method) : bool :=
  match m with
  | SetSearchQuery _ => true
  | _ => false
  end.

(** ** Reference definitions used to state the properties *)

(** The query-string image of one byte: a space is [+], an unreserved
    byte is itself, any other byte is escaped once as [%XX]. *)
Definition quote_plus_byte (b : Z) : str :=
  if b =? 32 then lit "+"
  else if contains _ALWAYS_SAFE b then [b]
  else format_02X b.

(** The part of the stored query after the base URL. *)
Definition query_portion (self : GoogleSitesFinder) : str :=
  drop (length base_query) (_search_query self).

(** [quote_plus_byte] after [+] has been turned back into a space. *)
Definition percent_byte (b : Z) : str :=
  if b =? 32 then [32]
  else if contains _ALWAYS_SAFE b then [b]
  else format_02X b.

Definition is_byte (b : Z) : Prop := 0 <= b < 256.

Definition success_status (code : Z) : Prop := 200 <= code < 300.

(** Linear arithmetic with division and remainder by constants. *)
Ltac zdm := Z.div_mod_to_equations; lia.

(** Closes [let* r := d in Return (x :: r) = let* r := d in Return (c :: r)]
    once [x] is shown to be [c]. *)
Ltac decoded_value c :=
  match goal with
  | |- bind _ (fun r => Return (?x :: r)) = _ =>
      replace x with c by zdm; reflexivity
  end.

(** * Properties *)

(** ** Properties of [startswith] and of the filter *)

Lemma str_eqb_eq (a b : str) : str_eqb a b = true <-> a = b.
Proof.
  revert b; induction a as [|x a IH]; intros [|y b]; simpl; try easy.
  rewrite andb_true_iff, Z.eqb_eq, IH.
  split; [intros [-> ->]; reflexivity | intros [= -> ->]; auto].
Qed.

Lemma startswith_prefix (url site : str) :
  startswith url site = true <-> site `prefix_of` url.
Proof.
  unfold startswith.
  destruct (Nat.ltb_spec (length url) (length site)) as [Hlt | Hle].
  - split; [discriminate|].
    intros Hp. apply prefix_length in Hp. lia.
  - rewrite str_eqb_eq. split.
    + intros <-. apply prefix_take.
    + intros [k ->]. rewrite take_app_length. reflexivity.
Qed.

Lemma startswith_nil (url : str) : startswith url [] = true.
Proof. apply startswith_prefix, prefix_nil. Qed.

Lemma filter_extracted_urls_elem (site : str) (urls : list str) (u : str) :
  u ∈ filter_extracted_urls site urls <-> u ∈ urls /\ site `prefix_of` u.
Proof.
  induction urls as [|url rest IH]; simpl.
  - rewrite elem_of_nil. tauto.
  - destruct (startswith url site) eqn:E.
    + apply startswith_prefix in E.
      rewrite !elem_of_cons, IH. split.
      * intros [-> | [? ?]]; auto.
      * intros [[-> | ?] ?]; auto.
    + rewrite elem_of_cons, IH. split.
      * intros [? ?]; auto.
      * intros [[-> | ?] Hp]; auto.
        apply startswith_prefix in Hp. congruence.
Qed.

Lemma filter_extracted_urls_sublist (site : str) (urls : list str) :
  filter_extracted_urls site urls `sublist_of` urls.
Proof.
  induction urls as [|url rest IH]; simpl.
  - constructor.
  - destruct (startswith url site); constructor; exact IH.
Qed.

Lemma filter_extracted_urls_all (site : str) (urls : list str) :
  Forall (fun u => site `prefix_of` u) urls ->
  filter_extracted_urls site urls = urls.
Proof.
  induction 1 as [|url rest Hp _ IH]; simpl; [reflexivity|].
  apply startswith_prefix in Hp. rewrite Hp, IH. reflexivity.
Qed.

Lemma filter_extracted_urls_Forall (site : str) (urls : list str) :
  Forall (fun u => site `prefix_of` u) (filter_extracted_urls site urls).
Proof.
  apply Forall_forall. intros u Hu.
  apply filter_extracted_urls_elem in Hu. tauto.
Qed.

(** The filter keeps every order-preserving selection of matching links. *)
Lemma filter_extracted_urls_greatest (site : str) (urls l : list str) :
  l `sublist_of` urls ->
  Forall (fun u => site `prefix_of` u) l ->
  l `sublist_of` filter_extracted_urls site urls.
Proof.
  induction 1 as [|x l1 l2 _ IH|x l1 l2 _ IH]; intros HF; simpl.
  - constructor.
  - apply Forall_cons in HF as [Hx HF].
    apply startswith_prefix in Hx. rewrite Hx.
    constructor. auto.
  - destruct (startswith x site); [constructor|]; auto.
Qed.

(** C2: for every prefix and every list of links the filter returns the
    links that start with the prefix, as a subsequence of the input: in the
    input's order, each occurrence kept, nothing else added; an empty input
    gives an empty result, an input whose links all match is returned whole
    and one without a match gives the empty list. *)
Theorem filter_extracted_urls_exact (site : str) (urls : list str) :
  filter_extracted_urls site urls = filter (fun u => site `prefix_of` u) urls
  /\ filter_extracted_urls site urls `sublist_of` urls
  /\ (forall u, u ∈ filter_extracted_urls site urls
                <-> u ∈ urls /\ site `prefix_of` u)
  /\ (forall l, l `sublist_of` urls ->
                Forall (fun u => site `prefix_of` u) l ->
                l `sublist_of` filter_extracted_urls site urls)
  /\ filter_extracted_urls site [] = []
  /\ (Forall (fun u => site `prefix_of` u) urls ->
      filter_extracted_urls site urls = urls)
  /\ (Forall (fun u => ~ site `prefix_of` u) urls ->
      filter_extracted_urls site urls = []).
Proof.
  split; [|split; [|split; [|split; [|split; [|split]]]]].
  - induction urls as [|url rest IH]; [reflexivity|].
    rewrite filter_cons. cbn [filter_extracted_urls].
    destruct (decide (site `prefix_of` url)) as [Hp | Hn].
    + apply startswith_prefix in Hp. rewrite Hp. f_equal. exact IH.
    + destruct (startswith url site) eqn:E; [|exact IH].
      apply startswith_prefix in E. contradiction.
  - apply filter_extracted_urls_sublist.
  - intros u. apply filter_extracted_urls_elem.
  - intros l. apply filter_extracted_urls_greatest.
  - reflexivity.
  - apply filter_extracted_urls_all.
  - induction 1 as [|url rest Hn _ IH]; simpl; [reflexivity|].
    destruct (startswith url site) eqn:E; [|exact IH].
    apply startswith_prefix in E. contradiction.
Qed.

(** C6: the prefix is matched at the start of the whole URL string: of the
    three sample links only the first is kept (the third merely contains
    the prefix), and a link whose host extends the allow-listed domain is
    kept as well. *)
Theorem filter_extracted_urls_anchored :
  filter_extracted_urls (lit "https://www.exploit-db.com")
    [lit "https://www.exploit-db.com/exploits/1";
     lit "https://www.cvedetails.com/x";
     lit "https://evil.example/https://www.exploit-db.com"]
  = [lit "https://www.exploit-db.com/exploits/1"]
  /\ filter_extracted_urls (lit "https://www.exploit-db.com")
       [lit "https://www.exploit-db.com.evil.example/x"]
     = [lit "https://www.exploit-db.com.evil.example/x"].
Proof. split; vm_compute; reflexivity. Qed.

(** C9: filtering with the empty prefix returns the list unchanged. *)
Theorem filter_extracted_urls_empty_prefix (urls : list str) :
  filter_extracted_urls (lit "") urls = urls.
Proof.
  change (lit "") with (@nil Z).
  induction urls as [|url rest IH]; [reflexivity|].
  cbn [filter_extracted_urls].
  rewrite startswith_nil, IH. reflexivity.
Qed.

(** C10: filtering a filtered list with the same prefix changes nothing. *)
Theorem filter_extracted_urls_idempotent (site : str) (urls : list str) :
  filter_extracted_urls site (filter_extracted_urls site urls)
  = filter_extracted_urls site urls.
Proof.
  induction urls as [|url rest IH]; simpl; [reflexivity|].
  destruct (startswith url site) eqn:E; simpl; [|exact IH].
  rewrite E, IH. reflexivity.
Qed.

(** ** Quoting: the library code against the per-byte description *)

Lemma bind_Return {A B} (r : result A) (k : A -> result B) (b : B) :
  bind r k = Return b -> exists a, r = Return a /\ k a = Return b.
Proof. destruct r as [a|e]; simpl; [eauto | discriminate]. Qed.

Lemma contains_In (chars : list Z) (b : Z) :
  contains chars b = true <-> In b chars.
Proof.
  unfold contains. rewrite existsb_exists. split.
  - intros (x & Hx & E). apply Z.eqb_eq in E. subst. exact Hx.
  - intros Hb. exists b. split; [exact Hb | apply Z.eqb_refl].
Qed.

Lemma contains_app (l1 l2 : list Z) (b : Z) :
  contains (l1 ++ l2) b = contains l1 b || contains l2 b.
Proof. unfold contains. apply existsb_app. Qed.

Lemma always_safe_ascii (b : Z) :
  contains _ALWAYS_SAFE b = true -> 0 <= b < 0x80 /\ b <> 32 /\ b <> 37 /\ b <> 43.
Proof.
  intros H. apply contains_In in H.
  assert (Hall : Forall (fun c => 0 <= c < 0x80 /\ c <> 32 /\ c <> 37 /\ c <> 43)
                   _ALWAYS_SAFE).
  { unfold _ALWAYS_SAFE. vm_compute lit.
    repeat (constructor; [lia|]). constructor. }
  rewrite Forall_forall in Hall. apply Hall. apply list_elem_of_In. exact H.
Qed.

Lemma rstrip_nil (bs chars : bytes) :
  rstrip bs chars = [] <-> Forall (fun b => contains chars b = true) bs.
Proof.
  induction bs as [|b rest IH]; simpl.
  - split; [constructor | reflexivity].
  - destruct (rstrip rest chars) as [|k kept] eqn:E.
    + destruct (contains chars b) eqn:Eb.
      * split; [|reflexivity].
        intros _. constructor; [exact Eb | apply IH; reflexivity].
      * split; [discriminate|].
        intros HF. apply Forall_cons in HF as [Hb _]. congruence.
    + split; [discriminate|]. intros HF. apply Forall_cons in HF as [_ HF].
      apply IH in HF. discriminate.
Qed.

Lemma utf8_decode_ascii (errors : errors_mode) (bs : bytes) :
  Forall (fun b => b < 0x80) bs -> utf8_decode errors bs = Return bs.
Proof.
  induction 1 as [|b rest Hb _ IH]; [reflexivity|].
  cbn [utf8_decode]. rewrite (proj2 (Z.ltb_lt b 0x80) Hb), IH. reflexivity.
Qed.

Lemma encode_ascii_ignore_ascii (safe : str) (b : Z) :
  In b (encode_ascii_ignore safe) -> b < 0x80.
Proof.
  unfold encode_ascii_ignore. rewrite List.filter_In.
  intros [_ H]. apply Z.ltb_lt. exact H.
Qed.

Lemma quoter_safe (safe : bytes) (bs : bytes) :
  Forall (fun b => contains (_ALWAYS_SAFE ++ safe) b = true) bs ->
  concat (map (quoter safe) bs) = bs.
Proof.
  induction 1 as [|b rest Hb _ IH]; [reflexivity|].
  simpl. unfold quoter at 1. rewrite Hb, IH. reflexivity.
Qed.

(** The shortcut for input made of safe bytes agrees with the quoter. *)
Lemma quote_from_bytes_eq (bs : bytes) (safe : str) :
  quote_from_bytes bs safe
  = Return (concat (map (quoter (encode_ascii_ignore safe)) bs)).
Proof.
  unfold quote_from_bytes. destruct bs as [|b0 rest]; [reflexivity|].
  set (bs := b0 :: rest).
  destruct (rstrip bs (_ALWAYS_SAFE ++ encode_ascii_ignore safe)) eqn:E;
    [|reflexivity].
  apply rstrip_nil in E.
  rewrite (quoter_safe _ _ E). apply utf8_decode_ascii.
  eapply Forall_impl; [exact E|]. intros b Hb. cbv beta in Hb.
  rewrite contains_app in Hb. apply orb_true_iff in Hb as [Hb | Hb].
  - apply always_safe_ascii in Hb. lia.
  - apply contains_In in Hb. eapply encode_ascii_ignore_ascii. exact Hb.
Qed.

Lemma quote_eq (string safe : str) :
  quote string safe
  = let* bs := str_encode string in
    Return (concat (map (quoter (encode_ascii_ignore safe)) bs)).
Proof.
  unfold quote. destruct string as [|c rest]; [reflexivity|].
  destruct (str_encode (c :: rest)) as [bs|e]; simpl; [|reflexivity].
  apply quote_from_bytes_eq.
Qed.

Lemma lor_bit7 (a x : Z) : Z.testbit a 7 = true -> Z.lor a x <> 32.
Proof.
  intros Ha E. apply (f_equal (fun z => Z.testbit z 7)) in E.
  rewrite Z.lor_spec, Ha in E. discriminate.
Qed.

Lemma utf8_encode_char_space (c : Z) (bs : bytes) :
  utf8_encode_char c = Some bs -> In 32 bs -> c = 32.
Proof.
  unfold utf8_encode_char. intros H Hin.
  repeat match type of H with
         | (if ?b then _ else _) = _ => destruct b
         end;
    try discriminate; injection H as <-; simpl in Hin;
    repeat match type of Hin with
           | _ \/ _ => destruct Hin as [Hin | Hin]
           | False => contradiction
           | Z.lor _ _ = 32 => exfalso; revert Hin; apply lor_bit7; reflexivity
           end.
  exact Hin.
Qed.

Lemma utf8_encode_from_space (s : str) : forall pos bs,
  utf8_encode_from pos s = Return bs -> In 32 bs -> In 32 s.
Proof.
  induction s as [|c rest IH]; intros pos bs H Hin; simpl in H.
  - injection H as <-. contradiction.
  - destruct (utf8_encode_char c) as [l|] eqn:Ec; [|discriminate].
    apply bind_Return in H as (tl & Htl & H). injection H as <-.
    apply in_app_or in Hin as [Hin | Hin].
    + left. eapply utf8_encode_char_space; eauto.
    + right. eapply IH; eauto.
Qed.

(** Every character [format_02X] can write after the percent sign. *)
Lemma hex_digit_ascii (n : nat) :
  let h := nth n (lit "0123456789ABCDEF") 0 in
  0 <= h < 0x80 /\ h <> 32 /\ h <> 37 /\ h <> 43.
Proof.
  vm_compute lit.
  do 16 (destruct n as [|n]; [simpl; lia|]). destruct n; simpl; lia.
Qed.

Lemma replace_concat (old new : Z) (parts : list str) :
  replace old new (concat parts) = concat (map (replace old new) parts).
Proof.
  unfold replace. induction parts as [|p ps IH]; simpl; [reflexivity|].
  rewrite map_app, IH. reflexivity.
Qed.

Lemma replace_quoter_space (b : Z) :
  replace 32 43 (quoter (encode_ascii_ignore ([] ++ lit " ")) b) = quote_plus_byte b.
Proof.
  change (encode_ascii_ignore ([] ++ lit " ")) with [32].
  unfold quoter, quote_plus_byte. rewrite contains_app.
  destruct (Z.eqb_spec b 32) as [-> | Hne].
  - reflexivity.
  - replace (contains [32] b) with false
      by (symmetry; unfold contains; simpl; apply orb_false_iff; split;
          [apply Z.eqb_neq; exact Hne | reflexivity]).
    rewrite orb_false_r.
    destruct (contains _ALWAYS_SAFE b) eqn:Es.
    + simpl. rewrite (proj2 (Z.eqb_neq b 32) Hne). reflexivity.
    + unfold format_02X, replace. cbn [map].
      rewrite !(proj2 (Z.eqb_neq _ 32)) by first [discriminate | apply hex_digit_ascii].
      reflexivity.
Qed.

Lemma quoter_no_space (b : Z) :
  b <> 32 -> quoter (encode_ascii_ignore []) b = quote_plus_byte b.
Proof.
  intros Hne. unfold quoter, quote_plus_byte. simpl encode_ascii_ignore.
  rewrite app_nil_r, (proj2 (Z.eqb_neq b 32) Hne). reflexivity.
Qed.

(** [quote_plus] encodes the text as UTF-8 and maps every byte once. *)
Lemma quote_plus_eq (string : str) :
  quote_plus string
  = let* bs := str_encode string in
    Return (concat (map quote_plus_byte bs)).
Proof.
  unfold quote_plus. destruct (contains string 32) eqn:Esp; simpl negb; cbv iota.
  - rewrite quote_eq.
    destruct (str_encode string) as [bs|e]; simpl; [|reflexivity].
    rewrite replace_concat, map_map. f_equal. f_equal.
    apply map_ext. intros b. apply replace_quoter_space.
  - rewrite quote_eq.
    destruct (str_encode string) as [bs|e] eqn:Ee; simpl; [|reflexivity].
    f_equal. f_equal. apply map_ext_in. intros b Hb. apply quoter_no_space.
    intros ->. apply (utf8_encode_from_space _ _ _ Ee) in Hb.
    apply contains_In in Hb. congruence.
Qed.

Lemma not_surrogate_encodes (c : Z) :
  is_surrogate c = false -> exists bs, utf8_encode_char c = Some bs.
Proof.
  intros H. unfold utf8_encode_char. rewrite H.
  repeat match goal with
         | |- context [if ?b then _ else _] => destruct b
         end; eauto.
Qed.

Lemma valid_text_encodes (s : str) :
  valid_text s -> forall pos, exists bs, utf8_encode_from pos s = Return bs.
Proof.
  induction 1 as [|c rest [_ Hc] _ IH]; intros pos; simpl; [eauto|].
  destruct (not_surrogate_encodes c Hc) as [l ->].
  destruct (IH (S pos)) as [tl ->]. simpl. eauto.
Qed.

(** ** The stored query and its accessor *)

Lemma init_stored (V : str) (self : GoogleSitesFinder) :
  __init__ V = Return self ->
  exists bs, str_encode V = Return bs
             /\ _search_query self = base_query ++ concat (map quote_plus_byte bs).
Proof.
  unfold __init__, set_search_query. rewrite quote_plus_eq. intros H.
  apply bind_Return in H as (quoted & Hq & H). injection H as <-.
  apply bind_Return in Hq as (bs & Hbs & Hq). injection Hq as <-.
  exists bs. split; [exact Hbs | reflexivity].
Qed.

Lemma run_without_setter (get : str -> result HTMLResponse) (ms : list method) :
  forall self, forallb (fun m => negb (is_setter m)) ms = true ->
               run get ms self = self.
Proof.
  induction ms as [|m rest IH]; intros self H; [reflexivity|].
  simpl in H. apply andb_true_iff in H as [Hm Hrest].
  cbn [run]. destruct m; try discriminate; simpl; apply IH; exact Hrest.
Qed.

(** C8: construction succeeds for every valid text (a sequence of Unicode
    scalar values); the empty string is accepted and stores the bare base
    URL "https://www.google.co.uk/search?q=". *)
Theorem construction_total (V : str) :
  valid_text V ->
  (exists self, __init__ V = Return self)
  /\ __init__ (lit "")
     = Return {| _search_query := lit "https://www.google.co.uk/search?q=" |}.
Proof.
  intros HV. split; [|reflexivity].
  unfold __init__, set_search_query. rewrite quote_plus_eq.
  unfold str_encode. destruct (valid_text_encodes V HV 0%nat) as [bs ->].
  simpl. eauto.
Qed.

Lemma construction_total_witness :
  exists self, __init__ [0x4F; 0x20; 0xE9; 0x20AC; 0x1F600] = Return self.
Proof.
  apply (construction_total [0x4F; 0x20; 0xE9; 0x20AC; 0x1F600]).
  unfold valid_text.
  repeat (constructor; [split; [unfold is_code_point; lia | reflexivity]|]).
  constructor.
Defined.

(** The strings on which construction does fail: a lone surrogate raises. *)
Lemma construction_surrogate :
  __init__ [0x41; 0xD800] = Raise (UnicodeEncodeError 1).
Proof. reflexivity. Qed.

(** C5, as stated, fails: assigning to the public property [search_query]
    after construction replaces the stored query. *)
Lemma stored_query_not_immutable :
  ~ (forall (get : str -> result HTMLResponse) (V : str)
            (self : GoogleSitesFinder) (m : method),
       __init__ V = Return self ->
       _search_query (snd (call get m self)) = _search_query self).
Proof.
  intros H.
  specialize (H (fun _ => Raise ConnectionError) (lit "OpenSSH 7.2")
                {| _search_query :=
                     lit "https://www.google.co.uk/search?q=OpenSSH+7.2" |}
                (SetSearchQuery (lit "nginx 1.18"))).
  vm_compute in H. specialize (H eq_refl). discriminate H.
Qed.

(** C5, amended: the stored query is computed at construction from the
    version string; no run of calls to [__repr__], the accessor,
    [filter_extracted_urls] and [search_for_pages] changes it; an assignment
    to the property [search_query] recomputes it from the assigned string
    (and leaves it as it was when the encoding raises). *)
Theorem stored_query_changed_only_by_setter
  (get : str -> result HTMLResponse) (V : str) (self : GoogleSitesFinder) :
  __init__ V = Return self ->
  (exists quoted, quote_plus V = Return quoted
                  /\ _search_query self = base_query ++ quoted)
  /\ (forall ms, forallb (fun m => negb (is_setter m)) ms = true ->
                 run get ms self = self)
  /\ (forall v,
        snd (call get (SetSearchQuery v) self)
        = match quote_plus v with
          | Return quoted => {| _search_query := base_query ++ quoted |}
          | Raise _ => self
          end).
Proof.
  intros Hinit. split; [|split].
  - unfold __init__, set_search_query in Hinit.
    apply bind_Return in Hinit as (quoted & Hq & H). injection H as <-. eauto.
  - intros ms. apply run_without_setter.
  - intros v. unfold call, set_search_query.
    destruct (quote_plus v); reflexivity.
Qed.

Lemma stored_query_changed_only_by_setter_witness :
  run (fun _ => Raise Timeout)
      [GetSearchQuery; Repr; SearchForPages (lit "https://www.exploit-db.com");
       FilterExtractedUrls (lit "https://www.cvedetails.com") []]
      {| _search_query := lit "https://www.google.co.uk/search?q=OpenSSH+7.2" |}
  = {| _search_query := lit "https://www.google.co.uk/search?q=OpenSSH+7.2" |}.
Proof.
  assert (Hinit : __init__ (lit "OpenSSH 7.2")
                  = Return {| _search_query :=
                                lit "https://www.google.co.uk/search?q=OpenSSH+7.2" |})
    by (vm_compute; reflexivity).
  destruct (stored_query_changed_only_by_setter (fun _ => Raise Timeout) _ _ Hinit)
    as (_ & Hrun & _).
  apply Hrun. reflexivity.
Defined.

(** ** The search pipeline *)

(** C3, as stated, fails: a response with a non-2xx status is not turned
    into an error; its links are filtered and returned as a list. *)
Lemma non_success_status_returns_list :
  ~ (forall (get : str -> result HTMLResponse) (self : GoogleSitesFinder)
            (site : str) (r : HTMLResponse),
       get (search_query self) = Return r ->
       ~ success_status (status_code r) ->
       exists e, search_for_pages get self site = Raise e).
Proof.
  intros H.
  destruct (H (fun _ => Return {| status_code := 503;
                                  absolute_links :=
                                    Return [lit "https://www.exploit-db.com/exploits/1"] |})
              {| _search_query := lit "https://www.google.co.uk/search?q=OpenSSH+7.2" |}
              (lit "https://www.exploit-db.com") _ eq_refl) as [e He].
  - unfold success_status. simpl. lia.
  - vm_compute in He. discriminate He.
Qed.

(** C3, amended: when the GET raises (connection, DNS or timeout error)
    [search_for_pages] raises that same error and returns no list; a
    response is processed whatever its status: its links are extracted and
    filtered, so a non-2xx status gives the same outcome as a 2xx one. *)
Theorem search_for_pages_failures
  (get : str -> result HTMLResponse) (self : GoogleSitesFinder) (site : str) :
  (forall e, get (search_query self) = Raise e ->
             search_for_pages get self site = Raise e)
  /\ (forall r, get (search_query self) = Return r ->
        search_for_pages get self site
        = let* urls := absolute_links r in
          Return (filter_extracted_urls site urls))
  /\ (forall code code' links,
        search_for_pages
          (fun _ => Return {| status_code := code; absolute_links := links |})
          self site
        = search_for_pages
            (fun _ => Return {| status_code := code'; absolute_links := links |})
            self site).
Proof.
  unfold search_for_pages, __send_search_query, __extract_urls.
  split; [|split].
  - intros e ->. reflexivity.
  - intros r ->. reflexivity.
  - reflexivity.
Qed.

(** C7: when the GET returns a response and the extraction yields the links,
    [search_for_pages] returns a list, the filtered links; with no link
    extracted it returns the empty list and raises nothing. *)
Theorem search_for_pages_returns_list
  (get : str -> result HTMLResponse) (self : GoogleSitesFinder) (site : str)
  (r : HTMLResponse) (urls : list str) :
  get (search_query self) = Return r ->
  __extract_urls r = Return urls ->
  search_for_pages get self site = Return (filter_extracted_urls site urls)
  /\ (urls = [] -> search_for_pages get self site = Return []).
Proof.
  intros Hget Hex.
  assert (H : search_for_pages get self site
              = Return (filter_extracted_urls site urls)).
  { unfold search_for_pages, __send_search_query. rewrite Hget. simpl.
    rewrite Hex. reflexivity. }
  split; [exact H|]. intros ->. exact H.
Qed.

Lemma search_for_pages_returns_list_witness :
  search_for_pages
    (fun _ => Return {| status_code := 200; absolute_links := Return [] |})
    {| _search_query := lit "https://www.google.co.uk/search?q=OpenSSH+7.2" |}
    (lit "https://www.exploit-db.com")
  = Return [].
Proof.
  apply (search_for_pages_returns_list
           (fun _ => Return {| status_code := 200; absolute_links := Return [] |})
           {| _search_query := lit "https://www.google.co.uk/search?q=OpenSSH+7.2" |}
           (lit "https://www.exploit-db.com")
           {| status_code := 200; absolute_links := Return [] |} []
           eq_refl eq_refl).
  reflexivity.
Defined.

(** ** The UTF-8 codec: decoding what the encoder wrote *)

(** Shifts and masks as arithmetic. *)
Lemma lor_disjoint (k a x : Z) :
  0 <= k -> 0 <= x < 2 ^ k -> Z.lor (a * 2 ^ k) x = a * 2 ^ k + x.
Proof.
  intros Hk Hx. rewrite <- (Z.add_lor_land (a * 2 ^ k) x).
  assert (E : Z.land (a * 2 ^ k) x = 0); [|lia].
  apply Z.bits_inj'. intros n Hn.
  rewrite Z.land_spec, Z.bits_0.
  destruct (Z.lt_ge_cases n k) as [Hlt | Hge].
  - rewrite Z.mul_pow2_bits_low by exact Hlt. reflexivity.
  - rewrite <- (Z.mod_small x (2 ^ k)) by exact Hx.
    rewrite Z.mod_pow2_bits_high by lia. apply andb_false_r.
Qed.

Lemma shiftr_6 (c : Z) : Z.shiftr c 6 = c / 64.
Proof. apply Z.shiftr_div_pow2. lia. Qed.
Lemma shiftr_12 (c : Z) : Z.shiftr c 12 = c / 4096.
Proof. apply Z.shiftr_div_pow2. lia. Qed.
Lemma shiftr_18 (c : Z) : Z.shiftr c 18 = c / 262144.
Proof. apply Z.shiftr_div_pow2. lia. Qed.
Lemma land_3F (c : Z) : Z.land c 0x3F = c mod 64.
Proof. apply (Z.land_ones c 6). lia. Qed.
Lemma shiftl_6 (c : Z) : Z.shiftl c 6 = c * 64.
Proof. apply Z.shiftl_mul_pow2. lia. Qed.
Lemma shiftl_12 (c : Z) : Z.shiftl c 12 = c * 4096.
Proof. apply Z.shiftl_mul_pow2. lia. Qed.
Lemma shiftl_18 (c : Z) : Z.shiftl c 18 = c * 262144.
Proof. apply Z.shiftl_mul_pow2. lia. Qed.

Lemma lor_80 (x : Z) : 0 <= x < 64 -> Z.lor 0x80 x = 0x80 + x.
Proof. apply (lor_disjoint 6 2). lia. Qed.
Lemma lor_C0 (x : Z) : 0 <= x < 32 -> Z.lor 0xC0 x = 0xC0 + x.
Proof. apply (lor_disjoint 5 6). lia. Qed.
Lemma lor_E0 (x : Z) : 0 <= x < 16 -> Z.lor 0xE0 x = 0xE0 + x.
Proof. apply (lor_disjoint 4 14). lia. Qed.
Lemma lor_F0 (x : Z) : 0 <= x < 8 -> Z.lor 0xF0 x = 0xF0 + x.
Proof. apply (lor_disjoint 3 30). lia. Qed.

Lemma is_continuation_true (b : Z) :
  0x80 <= b < 0xC0 -> is_continuation b = true.
Proof.
  intros H. unfold is_continuation. apply andb_true_iff.
  split; [apply Z.leb_le | apply Z.ltb_lt]; lia.
Qed.

Lemma utf8_decode_2 (errors : errors_mode) (b0 b1 : Z) (rest : bytes) :
  0xC2 <= b0 < 0xE0 -> 0x80 <= b1 < 0xC0 ->
  utf8_decode errors (b0 :: b1 :: rest)
  = let* r := utf8_decode errors rest in
    Return (b0 * 64 + b1 - 0x3080 :: r).
Proof.
  intros H0 H1.
  assert (T1 : (b0 <? 0x80) = false) by (apply Z.ltb_ge; lia).
  assert (T2 : (b0 <? 0xE0) = true) by (apply Z.ltb_lt; lia).
  assert (T3 : (b0 <? 0xC2) = false) by (apply Z.ltb_ge; lia).
  pose proof (is_continuation_true b1 H1) as C1.
  cbn [utf8_decode]. rewrite T1, T2, T3, C1. cbn [negb andb orb].
  rewrite shiftl_6. reflexivity.
Qed.

Lemma utf8_decode_3 (errors : errors_mode) (b0 b1 b2 : Z) (rest : bytes) :
  0xE0 <= b0 < 0xF0 -> 0x80 <= b1 < 0xC0 -> 0x80 <= b2 < 0xC0 ->
  (b0 = 0xE0 -> 0xA0 <= b1) -> (b0 = 0xED -> b1 < 0xA0) ->
  utf8_decode errors (b0 :: b1 :: b2 :: rest)
  = let* r := utf8_decode errors rest in
    Return (b0 * 4096 + b1 * 64 + b2 - 0xE2080 :: r).
Proof.
  intros H0 H1 H2 HE0 HED.
  assert (T1 : (b0 <? 0x80) = false) by (apply Z.ltb_ge; lia).
  assert (T2 : (b0 <? 0xE0) = false) by (apply Z.ltb_ge; lia).
  assert (T3 : (b0 <? 0xF0) = true) by (apply Z.ltb_lt; lia).
  assert (T4 : (b0 =? 0xE0) && (b1 <? 0xA0) = false).
  { apply andb_false_iff.
    destruct (Z.eqb_spec b0 0xE0) as [E|N]; [right | left; reflexivity].
    apply Z.ltb_ge. auto. }
  assert (T5 : (b0 =? 0xED) && (0xA0 <=? b1) = false).
  { apply andb_false_iff.
    destruct (Z.eqb_spec b0 0xED) as [E|N]; [right | left; reflexivity].
    apply Z.leb_gt. auto. }
  pose proof (is_continuation_true b1 H1) as C1.
  pose proof (is_continuation_true b2 H2) as C2.
  cbn [utf8_decode]. rewrite T1, T2, T3, C1, T4, T5, C2. cbn [negb andb orb].
  rewrite shiftl_12, shiftl_6. reflexivity.
Qed.

Lemma utf8_decode_4 (errors : errors_mode) (b0 b1 b2 b3 : Z) (rest : bytes) :
  0xF0 <= b0 < 0xF5 ->
  0x80 <= b1 < 0xC0 -> 0x80 <= b2 < 0xC0 -> 0x80 <= b3 < 0xC0 ->
  (b0 = 0xF0 -> 0x90 <= b1) -> (b0 = 0xF4 -> b1 < 0x90) ->
  utf8_decode errors (b0 :: b1 :: b2 :: b3 :: rest)
  = let* r := utf8_decode errors rest in
    Return (b0 * 262144 + b1 * 4096 + b2 * 64 + b3 - 0x3C82080 :: r).
Proof.
  intros H0 H1 H2 H3 HF0 HF4.
  assert (T1 : (b0 <? 0x80) = false) by (apply Z.ltb_ge; lia).
  assert (T2 : (b0 <? 0xE0) = false) by (apply Z.ltb_ge; lia).
  assert (T3 : (b0 <? 0xF0) = false) by (apply Z.ltb_ge; lia).
  assert (T4 : (b0 <? 0xF5) = true) by (apply Z.ltb_lt; lia).
  assert (T5 : (if b1 <? 0x90 then b0 =? 0xF0 else b0 =? 0xF4) = false).
  { destruct (Z.ltb_spec b1 0x90); apply Z.eqb_neq; intros E;
      [apply HF0 in E | apply HF4 in E]; lia. }
  pose proof (is_continuation_true b1 H1) as C1.
  pose proof (is_continuation_true b2 H2) as C2.
  pose proof (is_continuation_true b3 H3) as C3.
  cbn [utf8_decode].
  rewrite T1, T2, T3, T4, C1, T5, C2, C3. cbn [negb andb orb].
  rewrite shiftl_18, shiftl_12, shiftl_6. reflexivity.
Qed.

Lemma utf8_decode_encode_char (errors : errors_mode) (c : Z) (bs rest : bytes) :
  is_scalar c -> utf8_encode_char c = Some bs ->
  utf8_decode errors (bs ++ rest)
  = let* r := utf8_decode errors rest in Return (c :: r).
Proof.
  intros [[Hlo Hhi] Hs] H. unfold utf8_encode_char in H. rewrite Hs in H.
  unfold is_surrogate in Hs. apply andb_false_iff in Hs.
  rewrite Z.leb_gt, Z.leb_gt in Hs.
  rewrite !shiftr_6, !shiftr_12, !shiftr_18, !land_3F in H.
  destruct (Z.ltb_spec c 0x80);
    [|destruct (Z.ltb_spec c 0x800); [|destruct (Z.ltb_spec c 0x10000)]];
    injection H as <-.
  - cbn [app utf8_decode]. rewrite (proj2 (Z.ltb_lt c 0x80)) by lia. reflexivity.
  - rewrite lor_C0, lor_80 by zdm. cbn [app].
    rewrite utf8_decode_2 by zdm.
    decoded_value c.
  - rewrite lor_E0, !lor_80 by zdm. cbn [app].
    rewrite utf8_decode_3 by zdm.
    decoded_value c.
  - rewrite lor_F0, !lor_80 by zdm. cbn [app].
    rewrite utf8_decode_4 by zdm.
    decoded_value c.
Qed.

Lemma utf8_encode_char_bytes (c : Z) (bs : bytes) :
  is_scalar c -> utf8_encode_char c = Some bs -> Forall is_byte bs.
Proof.
  intros [[Hlo Hhi] Hs] H. unfold utf8_encode_char in H. rewrite Hs in H.
  rewrite !shiftr_6, !shiftr_12, !shiftr_18, !land_3F in H.
  unfold is_byte.
  destruct (Z.ltb_spec c 0x80);
    [|destruct (Z.ltb_spec c 0x800); [|destruct (Z.ltb_spec c 0x10000)]];
    injection H as <-.
  - repeat constructor; lia.
  - rewrite lor_C0, lor_80 by zdm. repeat constructor; zdm.
  - rewrite lor_E0, !lor_80 by zdm. repeat constructor; zdm.
  - rewrite lor_F0, !lor_80 by zdm. repeat constructor; zdm.
Qed.

Lemma utf8_round_trip (errors : errors_mode) (s : str) :
  valid_text s -> forall pos bs,
  utf8_encode_from pos s = Return bs ->
  Forall is_byte bs /\ utf8_decode errors bs = Return s.
Proof.
  induction 1 as [|c rest Hc _ IH]; intros pos bs H; simpl in H.
  - injection H as <-. split; [constructor | reflexivity].
  - destruct (utf8_encode_char c) as [l|] eqn:Ec; [|discriminate].
    apply bind_Return in H as (tl & Htl & H). injection H as <-.
    destruct (IH _ _ Htl) as [Hb Hd]. split.
    + apply Forall_app. split; [|exact Hb].
      eapply utf8_encode_char_bytes; eauto.
    + rewrite (utf8_decode_encode_char errors c l tl Hc Ec), Hd. reflexivity.
Qed.

(** ** Unquoting what [quote_plus] wrote *)

Lemma hex_digit_value (q : Z) :
  0 <= q < 16 -> hex_value (nth (Z.to_nat q) (lit "0123456789ABCDEF") 0) = Some q.
Proof.
  intros Hq.
  assert (E : q = Z.of_nat (Z.to_nat q)) by lia.
  assert (Hn : (Z.to_nat q < 16)%nat) by lia.
  revert E Hn. generalize (Z.to_nat q) as n. intros n -> Hn.
  do 16 (destruct n as [|n]; [reflexivity|]). lia.
Qed.

Lemma hextobyte_format (b : Z) :
  is_byte b ->
  exists h1 h2, format_02X b = [37; h1; h2]
                /\ h1 <> 37 /\ h2 <> 37
                /\ _hextobyte [h1; h2] = Some b.
Proof.
  intros Hb. unfold is_byte in Hb. unfold format_02X.
  eexists _, _. split; [reflexivity|].
  split; [apply hex_digit_ascii|]. split; [apply hex_digit_ascii|].
  unfold _hextobyte.
  rewrite !hex_digit_value by zdm. f_equal. zdm.
Qed.

Lemma percent_byte_cases (b : Z) :
  is_byte b ->
  (percent_byte b = [b] /\ b <> 37)
  \/ (exists h1 h2, percent_byte b = [37; h1; h2]
                    /\ h1 <> 37 /\ h2 <> 37 /\ _hextobyte [h1; h2] = Some b).
Proof.
  intros Hb. unfold percent_byte.
  destruct (Z.eqb_spec b 32) as [-> | Hne]; [left; split; [reflexivity | lia]|].
  destruct (contains _ALWAYS_SAFE b) eqn:Es.
  - left. split; [reflexivity|]. apply always_safe_ascii in Es. tauto.
  - right. apply hextobyte_format. exact Hb.
Qed.

Lemma split_cons_other (sep b : Z) (rest first : bytes) (items : list bytes) :
  b <> sep -> split sep rest = first :: items ->
  split sep (b :: rest) = (b :: first) :: items.
Proof.
  intros Hne E. cbn [split]. rewrite E, (proj2 (Z.eqb_neq b sep) Hne). reflexivity.
Qed.

Lemma split_cons_sep (sep : Z) (rest : bytes) :
  split sep (sep :: rest) = [] :: split sep rest.
Proof. cbn [split]. rewrite Z.eqb_refl. reflexivity. Qed.

Lemma split_not_nil (sep : Z) (bs : bytes) : split sep bs <> [].
Proof.
  destruct bs as [|b rest]; simpl; [discriminate|].
  destruct (b =? sep); [discriminate|].
  destruct (split sep rest); discriminate.
Qed.

Lemma split_single (sep : Z) (bs p : bytes) :
  split sep bs = [p] -> p = bs.
Proof.
  revert p. induction bs as [|b rest IH]; intros p H; simpl in H.
  - injection H as <-. reflexivity.
  - pose proof (split_not_nil sep rest) as Hnn.
    destruct (split sep rest) as [|q qs]; [contradiction|].
    destruct (b =? sep); [discriminate|].
    injection H as <- ->. f_equal. apply IH. reflexivity.
Qed.

Lemma unquote_item_hex (h1 h2 b : Z) (tl : bytes) :
  _hextobyte [h1; h2] = Some b -> unquote_item (h1 :: h2 :: tl) = b :: tl.
Proof.
  intros H. unfold unquote_item.
  change (take 2 (h1 :: h2 :: tl)) with [h1; h2].
  rewrite H. reflexivity.
Qed.

Lemma split_percent_bytes (bs : bytes) :
  Forall is_byte bs ->
  exists first items,
    split 37 (concat (map percent_byte bs)) = first :: items
    /\ first ++ concat (map unquote_item items) = bs.
Proof.
  induction 1 as [|b rest Hb _ (first & items & Hsp & Hcat)].
  - exists [], []. split; reflexivity.
  - cbn [map concat].
    destruct (percent_byte_cases b Hb) as [[-> Hne] | (h1 & h2 & -> & N1 & N2 & Hx)].
    + exists (b :: first), items. split.
      * apply split_cons_other; assumption.
      * simpl. rewrite Hcat. reflexivity.
    + exists [], ((h1 :: h2 :: first) :: items). split.
      * change ([37; h1; h2] ++ concat (map percent_byte rest))
          with (37 :: h1 :: h2 :: concat (map percent_byte rest)).
        rewrite split_cons_sep. f_equal.
        apply (split_cons_other 37 h1 _ (h2 :: first) items N1).
        apply (split_cons_other 37 h2 _ first items N2 Hsp).
      * cbn [map concat app]. rewrite (unquote_item_hex _ _ _ _ Hx).
        simpl. rewrite Hcat. reflexivity.
Qed.

Lemma percent_bytes_nil (bs : bytes) :
  concat (map percent_byte bs) = [] -> bs = [].
Proof.
  destruct bs as [|b rest]; [reflexivity|]. cbn [map concat].
  unfold percent_byte, format_02X.
  destruct (b =? 32); [discriminate|].
  destruct (contains _ALWAYS_SAFE b); discriminate.
Qed.

Lemma unquote_to_bytes_percent (bs : bytes) :
  Forall is_byte bs -> unquote_to_bytes (concat (map percent_byte bs)) = bs.
Proof.
  intros Hbs. unfold unquote_to_bytes.
  destruct (concat (map percent_byte bs)) as [|c0 tl] eqn:Eq.
  - symmetry. apply percent_bytes_nil. exact Eq.
  - rewrite <- Eq. destruct (split_percent_bytes bs Hbs) as (first & items & Hsp & Hcat).
    rewrite Hsp. destruct items as [|i items].
    + apply split_single in Hsp. simpl in Hcat. rewrite app_nil_r in Hcat. congruence.
    + exact Hcat.
Qed.

Lemma replace_plus_byte (b : Z) :
  replace 43 32 (quote_plus_byte b) = percent_byte b.
Proof.
  unfold quote_plus_byte, percent_byte.
  destruct (b =? 32); [reflexivity|].
  destruct (contains _ALWAYS_SAFE b) eqn:Es.
  - apply always_safe_ascii in Es. unfold replace. cbn [map].
    rewrite (proj2 (Z.eqb_neq b 43)) by tauto. reflexivity.
  - unfold format_02X, replace. cbn [map].
    rewrite !(proj2 (Z.eqb_neq _ 43)) by first [discriminate | apply hex_digit_ascii].
    reflexivity.
Qed.

Lemma percent_bytes_ascii (bs : bytes) :
  Forall (fun c => c < 0x80) (concat (map percent_byte bs)).
Proof.
  induction bs as [|b rest IH]; [constructor|].
  cbn [map concat]. apply Forall_app. split; [|exact IH].
  unfold percent_byte.
  destruct (b =? 32); [repeat constructor|].
  destruct (contains _ALWAYS_SAFE b) eqn:Es.
  - apply always_safe_ascii in Es. repeat constructor. lia.
  - unfold format_02X. repeat constructor; apply hex_digit_ascii.
Qed.

Lemma percent_bytes_plain (bs : bytes) :
  Forall is_byte bs ->
  contains (concat (map percent_byte bs)) 37 = false ->
  concat (map percent_byte bs) = bs.
Proof.
  induction 1 as [|b rest Hb _ IH]; intros Hno; [reflexivity|].
  cbn [map concat] in *. rewrite contains_app in Hno.
  apply orb_false_iff in Hno as [Hb37 Hrest].
  destruct (percent_byte_cases b Hb) as [[E _] | (h1 & h2 & E & _)]; rewrite E in *.
  - rewrite (IH Hrest). reflexivity.
  - unfold contains in Hb37. simpl in Hb37. discriminate.
Qed.

Lemma unquote_parts_ascii (errors : errors_mode) (string : str) :
  Forall (fun c => c < 0x80) string ->
  forall run, unquote_parts errors string run = unquote_run errors (run ++ string).
Proof.
  induction 1 as [|c rest Hc _ IH]; intros run; cbn [unquote_parts].
  - rewrite app_nil_r. reflexivity.
  - rewrite (proj2 (Z.ltb_lt c 0x80) Hc), IH, <- app_assoc. reflexivity.
Qed.

Lemma unquote_percent_bytes (V : str) (bs : bytes) :
  valid_text V -> str_encode V = Return bs ->
  unquote (concat (map percent_byte bs)) = Return V.
Proof.
  intros HV Henc.
  destruct (utf8_round_trip Replace V HV _ _ Henc) as [Hbytes Hdec].
  unfold unquote.
  destruct (contains (concat (map percent_byte bs)) 37) eqn:E37; cbn [negb].
  - rewrite (unquote_parts_ascii _ _ (percent_bytes_ascii bs)). cbn [app].
    unfold unquote_run.
    destruct (concat (map percent_byte bs)) as [|c0 tl] eqn:Eq; [discriminate|].
    rewrite <- Eq, (unquote_to_bytes_percent bs Hbytes). exact Hdec.
  - pose proof (percent_bytes_plain bs Hbytes E37) as Eplain.
    rewrite Eplain. f_equal.
    pose proof (percent_bytes_ascii bs) as Hascii. rewrite Eplain in Hascii.
    rewrite (utf8_decode_ascii Replace bs Hascii) in Hdec. congruence.
Qed.

Lemma unquote_plus_quote_plus (V : str) (bs : bytes) :
  valid_text V -> str_encode V = Return bs ->
  unquote_plus (concat (map quote_plus_byte bs)) = Return V.
Proof.
  intros HV Henc. unfold unquote_plus.
  rewrite replace_concat, map_map.
  rewrite (map_ext _ _ replace_plus_byte).
  apply unquote_percent_bytes; assumption.
Qed.

Lemma quote_plus_byte_once (b : Z) :
  is_byte b ->
  quote_plus_byte b = [b] \/ quote_plus_byte b = lit "+"
  \/ exists h1 h2, quote_plus_byte b = [37; h1; h2]
                   /\ _hextobyte [h1; h2] = Some b.
Proof.
  intros Hb. unfold quote_plus_byte.
  destruct (b =? 32); [right; left; reflexivity|].
  destruct (contains _ALWAYS_SAFE b); [left; reflexivity|].
  right; right. destruct (hextobyte_format b Hb) as (h1 & h2 & E & _ & _ & Hx).
  eauto.
Qed.

(** C4: for every valid text V (Unicode scalar values: spaces, [&], [=],
    [+], [%] and non-ASCII characters included) construction succeeds and
    unquote_plus applied to the part of the stored query after the base URL
    returns V; that part is the image of the UTF-8 bytes of V, each byte
    written once: as itself, as [+], or as one [%XX] escape whose two hex
    digits give the byte back. *)
Theorem percent_encoding_round_trip (V : str) :
  valid_text V ->
  exists self bs,
    __init__ V = Return self
    /\ str_encode V = Return bs
    /\ query_portion self = concat (map quote_plus_byte bs)
    /\ unquote_plus (query_portion self) = Return V
    /\ Forall (fun b => quote_plus_byte b = [b] \/ quote_plus_byte b = lit "+"
                        \/ exists h1 h2, quote_plus_byte b = [37; h1; h2]
                                         /\ _hextobyte [h1; h2] = Some b) bs.
Proof.
  intros HV.
  destruct (valid_text_encodes V HV 0%nat) as [bs Henc].
  fold (str_encode V) in Henc.
  exists {| _search_query := base_query ++ concat (map quote_plus_byte bs) |}, bs.
  assert (Hq : query_portion
                 {| _search_query := base_query ++ concat (map quote_plus_byte bs) |}
               = concat (map quote_plus_byte bs)).
  { unfold query_portion. cbn [_search_query]. apply drop_app_length. }
  split; [|split; [exact Henc|split; [exact Hq|split]]].
  - unfold __init__, set_search_query. rewrite quote_plus_eq, Henc. reflexivity.
  - rewrite Hq. apply unquote_plus_quote_plus; assumption.
  - destruct (utf8_round_trip Replace V HV _ _ Henc) as [Hbytes _].
    eapply Forall_impl; [exact Hbytes|]. apply quote_plus_byte_once.
Qed.

Lemma percent_encoding_round_trip_witness :
  exists self,
    __init__ ([0x4F; 0x20; 0xE9; 0x20AC; 0x1F600] ++ lit "&=+%") = Return self
    /\ unquote_plus (query_portion self)
       = Return ([0x4F; 0x20; 0xE9; 0x20AC; 0x1F600] ++ lit "&=+%").
Proof.
  destruct (percent_encoding_round_trip ([0x4F; 0x20; 0xE9; 0x20AC; 0x1F600] ++ lit "&=+%"))
    as (self & bs & Hinit & _ & _ & Hrt & _).
  - unfold valid_text. vm_compute app.
    repeat (constructor; [split; [unfold is_code_point; lia | reflexivity]|]).
    constructor.
  - exists self. split; assumption.
Defined.

(** * Further properties of the code *)

(** ** The link filter under composition *)

Lemma startswith_weaken (url s1 s2 : str) :
  s1 `prefix_of` s2 -> startswith url s2 = true -> startswith url s1 = true.
Proof.
  intros H12 H. apply startswith_prefix. apply startswith_prefix in H.
  etransitivity; eassumption.
Qed.

(** X1: filtering a concatenation of two link lists is the concatenation of
    the two filtered lists. *)
Theorem filter_extracted_urls_app (site : str) (a b : list str) :
  filter_extracted_urls site (a ++ b)
  = filter_extracted_urls site a ++ filter_extracted_urls site b.
Proof.
  induction a as [|url rest IH]; [reflexivity|].
  cbn [app filter_extracted_urls].
  destruct (startswith url site); rewrite IH; reflexivity.
Qed.

(** X2: two filters commute: filtering by one prefix and then by another
    gives the same list in either order. *)
Theorem filter_extracted_urls_comm (s1 s2 : str) (urls : list str) :
  filter_extracted_urls s1 (filter_extracted_urls s2 urls)
  = filter_extracted_urls s2 (filter_extracted_urls s1 urls).
Proof.
  induction urls as [|url rest IH]; [reflexivity|].
  cbn [filter_extracted_urls].
  destruct (startswith url s2) eqn:E2, (startswith url s1) eqn:E1;
    cbn [filter_extracted_urls]; rewrite ?E1, ?E2, IH; reflexivity.
Qed.

(** X3: when one prefix extends another, the longer one decides: filtering
    by both, in either order, equals filtering by the longer prefix alone,
    and its result is a subsequence of the shorter prefix's result. *)
Theorem filter_extracted_urls_nested (s1 s2 : str) (urls : list str) :
  s1 `prefix_of` s2 ->
  filter_extracted_urls s2 (filter_extracted_urls s1 urls)
  = filter_extracted_urls s2 urls
  /\ filter_extracted_urls s1 (filter_extracted_urls s2 urls)
     = filter_extracted_urls s2 urls
  /\ filter_extracted_urls s2 urls `sublist_of` filter_extracted_urls s1 urls.
Proof.
  intros H12.
  assert (Hall : Forall (fun u => s1 `prefix_of` u)
                   (filter_extracted_urls s2 urls)).
  { eapply Forall_impl; [apply filter_extracted_urls_Forall|].
    intros u Hu. cbv beta in Hu. etransitivity; eassumption. }
  split; [|split].
  - induction urls as [|url rest IH]; [reflexivity|].
    cbn [filter_extracted_urls] in *.
    destruct (startswith url s2) eqn:E2.
    + rewrite (startswith_weaken url s1 s2 H12 E2).
      cbn [filter_extracted_urls]. rewrite E2. f_equal. apply IH.
      apply Forall_cons in Hall. tauto.
    + destruct (startswith url s1); cbn [filter_extracted_urls];
        rewrite ?E2; apply IH; exact Hall.
  - apply filter_extracted_urls_all. exact Hall.
  - apply filter_extracted_urls_greatest; [|exact Hall].
    apply filter_extracted_urls_sublist.
Qed.

Lemma filter_extracted_urls_nested_witness :
  filter_extracted_urls (lit "https://www.exploit-db.com/exploits")
    (filter_extracted_urls (lit "https://www.exploit-db.com")
       [lit "https://www.exploit-db.com/exploits/1";
        lit "https://www.exploit-db.com/papers/2";
        lit "https://www.cvedetails.com/x"])
  = filter_extracted_urls (lit "https://www.exploit-db.com/exploits")
      [lit "https://www.exploit-db.com/exploits/1";
       lit "https://www.exploit-db.com/papers/2";
       lit "https://www.cvedetails.com/x"].
Proof.
  apply (filter_extracted_urls_nested (lit "https://www.exploit-db.com")
           (lit "https://www.exploit-db.com/exploits")).
  apply startswith_prefix. vm_compute. reflexivity.
Defined.

(** X4: two prefixes of which neither extends the other select disjoint
    links: filtering by one and then by the other leaves nothing.  The two
    documented sites are such a pair. *)
Theorem filter_extracted_urls_disjoint (s1 s2 : str) (urls : list str) :
  ~ s1 `prefix_of` s2 -> ~ s2 `prefix_of` s1 ->
  filter_extracted_urls s1 (filter_extracted_urls s2 urls) = [].
Proof.
  intros N12 N21.
  induction urls as [|url rest IH]; [reflexivity|].
  cbn [filter_extracted_urls].
  destruct (startswith url s2) eqn:E2; [|exact IH].
  cbn [filter_extracted_urls].
  destruct (startswith url s1) eqn:E1; [|exact IH].
  apply startswith_prefix in E1, E2.
  destruct (prefix_weak_total _ _ _ E1 E2); contradiction.
Qed.

Lemma filter_extracted_urls_disjoint_witness :
  filter_extracted_urls (lit "https://www.exploit-db.com")
    (filter_extracted_urls (lit "https://www.cvedetails.com")
       [lit "https://www.exploit-db.com/exploits/1";
        lit "https://www.cvedetails.com/x"])
  = [].
Proof.
  apply filter_extracted_urls_disjoint;
    intros H; apply startswith_prefix in H; vm_compute in H; discriminate H.
Defined.

(** X5: the filter returns its input unchanged exactly when every link
    starts with the prefix, and returns the empty list exactly when none
    does; it never returns more links than it was given. *)
Theorem filter_extracted_urls_extremes (site : str) (urls : list str) :
  (filter_extracted_urls site urls = urls
   <-> Forall (fun u => site `prefix_of` u) urls)
  /\ (filter_extracted_urls site urls = []
      <-> Forall (fun u => ~ site `prefix_of` u) urls)
  /\ (length (filter_extracted_urls site urls) <= length urls)%nat.
Proof.
  split; [|split].
  - split; [|apply filter_extracted_urls_all].
    intros E. rewrite <- E. apply filter_extracted_urls_Forall.
  - split.
    + intros E. apply Forall_forall. intros u Hu Hp.
      assert (Hin : u ∈ filter_extracted_urls site urls)
        by (apply filter_extracted_urls_elem; split; assumption).
      rewrite E in Hin. apply elem_of_nil in Hin. exact Hin.
    + induction 1 as [|url rest Hn _ IH]; [reflexivity|].
      cbn [filter_extracted_urls].
      destruct (startswith url site) eqn:E; [|exact IH].
      apply startswith_prefix in E. contradiction.
  - apply sublist_length, filter_extracted_urls_sublist.
Qed.

(** ** The search pipeline *)

(** X6: what a returned list is: the transport answered the read-time query
    (stored query followed by " exploit") with a response whose links were
    extracted, and the list is a subsequence of those links, each starting
    with the requested prefix, without repetition when the links have
    none. *)
Theorem search_for_pages_result
  (get : str -> result HTMLResponse) (self : GoogleSitesFinder) (site : str)
  (found : list str) :
  search_for_pages get self site = Return found ->
  exists r urls,
    get (_search_query self ++ lit " exploit") = Return r
    /\ absolute_links r = Return urls
    /\ found = filter_extracted_urls site urls
    /\ found `sublist_of` urls
    /\ Forall (fun u => site `prefix_of` u) found
    /\ (NoDup urls -> NoDup found).
Proof.
  unfold search_for_pages, __send_search_query, __extract_urls, search_query.
  intros H. apply bind_Return in H as (r & Hr & H).
  apply bind_Return in H as (urls & Hu & H). injection H as <-.
  exists r, urls. split; [exact Hr|]. split; [exact Hu|].
  split; [reflexivity|]. split; [apply filter_extracted_urls_sublist|].
  split; [apply filter_extracted_urls_Forall|].
  intros Hnd.
  exact (sublist_NoDup _ _ Hnd (filter_extracted_urls_sublist site urls)).
Qed.

Lemma search_for_pages_result_witness :
  exists r urls,
    (fun _ : str =>
       Return {| status_code := 200;
                 absolute_links :=
                   Return [lit "https://www.exploit-db.com/exploits/1";
                           lit "https://www.cvedetails.com/x"] |})
      (lit "https://www.google.co.uk/search?q=OpenSSH+7.2" ++ lit " exploit")
    = Return r
    /\ absolute_links r = Return urls
    /\ [lit "https://www.exploit-db.com/exploits/1"] `sublist_of` urls.
Proof.
  destruct (search_for_pages_result
              (fun _ => Return {| status_code := 200;
                                  absolute_links :=
                                    Return [lit "https://www.exploit-db.com/exploits/1";
                                            lit "https://www.cvedetails.com/x"] |})
              {| _search_query := lit "https://www.google.co.uk/search?q=OpenSSH+7.2" |}
              (lit "https://www.exploit-db.com")
              [lit "https://www.exploit-db.com/exploits/1"])
    as (r & urls & Hr & Hu & _ & Hs & _).
  - vm_compute. reflexivity.
  - exists r, urls. split; [exact Hr|]. split; [exact Hu | exact Hs].
Defined.

(** X7: [search_for_pages] raises exactly when the GET raises or the link
    extraction raises, and it raises that very exception; there is no other
    source of failure and no partial result. *)
Theorem search_for_pages_raises
  (get : str -> result HTMLResponse) (self : GoogleSitesFinder) (site : str)
  (e : exn) :
  search_for_pages get self site = Raise e
  <-> get (search_query self) = Raise e
      \/ exists r, get (search_query self) = Return r
                   /\ absolute_links r = Raise e.
Proof.
  unfold search_for_pages, __send_search_query, __extract_urls.
  destruct (get (search_query self)) as [r|e0]; simpl.
  - destruct (absolute_links r) as [urls|e1] eqn:El; simpl.
    + split; [discriminate|].
      intros [H | (r' & Hr & H)]; [discriminate|].
      injection Hr as <-. congruence.
    + split.
      * intros [= ->]. right. exists r. split; [reflexivity | exact El].
      * intros [H | (r' & Hr & H)]; [discriminate|].
        injection Hr as <-. congruence.
  - split.
    + intros [= ->]. left. reflexivity.
    + intros [[= ->] | (r' & Hr & _)]; [reflexivity | discriminate].
Qed.

(** X8: the transport matters only through its answer to one URL, the
    stored query followed by the unencoded " exploit": two transports that
    agree there give the same outcome. *)
Theorem search_for_pages_single_request
  (get1 get2 : str -> result HTMLResponse) (self : GoogleSitesFinder)
  (site : str) :
  get1 (_search_query self ++ lit " exploit")
  = get2 (_search_query self ++ lit " exploit") ->
  search_for_pages get1 self site = search_for_pages get2 self site.
Proof.
  unfold search_for_pages, __send_search_query, search_query.
  intros ->. reflexivity.
Qed.

Lemma search_for_pages_single_request_witness :
  search_for_pages
    (fun q => if startswith q (lit "https://www.google.co.uk/")
              then Raise Timeout else Raise ConnectionError)
    {| _search_query := lit "https://www.google.co.uk/search?q=nginx" |}
    (lit "https://www.cvedetails.com")
  = search_for_pages (fun _ => Raise Timeout)
      {| _search_query := lit "https://www.google.co.uk/search?q=nginx" |}
      (lit "https://www.cvedetails.com").
Proof.
  apply search_for_pages_single_request. vm_compute. reflexivity.
Defined.

(** X9: searching for a site is searching with the empty prefix (which
    returns every extracted link) and then applying the public filter. *)
Theorem search_for_pages_then_filter
  (get : str -> result HTMLResponse) (self : GoogleSitesFinder) (site : str) :
  search_for_pages get self site
  = let* every := search_for_pages get self (lit "") in
    Return (filter_extracted_urls site every).
Proof.
  unfold search_for_pages.
  destruct (__send_search_query get (search_query self)) as [r|e];
    [|reflexivity].
  simpl. destruct (__extract_urls r) as [urls|e]; [|reflexivity].
  simpl. rewrite (filter_extracted_urls_all (lit "") urls); [reflexivity|].
  apply Forall_forall. intros u _. apply prefix_nil.
Qed.

(** ** The stored query over the life of an instance *)

Lemma init_prefix (v : str) (self : GoogleSitesFinder) :
  __init__ v = Return self -> base_query `prefix_of` _search_query self.
Proof.
  unfold __init__, set_search_query. intros H.
  apply bind_Return in H as (quoted & _ & H). injection H as <-.
  exists quoted. reflexivity.
Qed.

Lemma run_constructible (get : str -> result HTMLResponse) (ms : list method) :
  forall V self, __init__ V = Return self ->
                 exists v, __init__ v = Return (run get ms self).
Proof.
  induction ms as [|m rest IH]; intros V self Hinit; cbn [run].
  - exists V. exact Hinit.
  - destruct m; cbn [call snd]; try (apply (IH V); exact Hinit).
    destruct (set_search_query service_version) as [self'|e] eqn:Es;
      cbn [snd].
    + apply (IH service_version). exact Es.
    + apply (IH V). exact Hinit.
Qed.

(** X10: whatever public calls follow construction, assignments to
    [search_query] included, the instance is always one that construction
    produces from some version string, so the stored query always starts
    with the base URL "https://www.google.co.uk/search?q=". *)
Theorem reachable_instances_constructible
  (get : str -> result HTMLResponse) (V : str) (self : GoogleSitesFinder)
  (ms : list method) :
  __init__ V = Return self ->
  (exists v, __init__ v = Return (run get ms self))
  /\ lit "https://www.google.co.uk/search?q="
       `prefix_of` _search_query (run get ms self).
Proof.
  intros Hinit.
  destruct (run_constructible get ms V self Hinit) as [v Hv].
  split; [exists v; exact Hv|]. apply (init_prefix v). exact Hv.
Qed.

Lemma reachable_instances_constructible_witness :
  lit "https://www.google.co.uk/search?q="
    `prefix_of`
    _search_query
      (run (fun _ => Raise Timeout)
           [SetSearchQuery (lit "nginx 1.18"); GetSearchQuery;
            SetSearchQuery [0x41; 0xD800]; Repr]
           {| _search_query := lit "https://www.google.co.uk/search?q=OpenSSH+7.2" |}).
Proof.
  apply (reachable_instances_constructible (fun _ => Raise Timeout)
           (lit "OpenSSH 7.2")).
  vm_compute. reflexivity.
Defined.

(** ** When construction raises *)

Lemma surrogate_not_encoded (c : Z) :
  is_surrogate c = true -> utf8_encode_char c = None.
Proof.
  intros H. unfold utf8_encode_char. rewrite H.
  unfold is_surrogate in H. apply andb_true_iff in H as [Hlo _].
  apply Z.leb_le in Hlo.
  rewrite (proj2 (Z.ltb_ge c 0x80)), (proj2 (Z.ltb_ge c 0x800)) by lia.
  reflexivity.
Qed.

Lemma encoded_not_surrogate (c : Z) (bs : bytes) :
  utf8_encode_char c = Some bs -> is_surrogate c = false.
Proof.
  intros H. destruct (is_surrogate c) eqn:E; [|reflexivity].
  rewrite (surrogate_not_encoded c E) in H. discriminate.
Qed.

Lemma utf8_encode_from_surrogate (pre post : str) (c : Z) :
  Forall (fun x => is_surrogate x = false) pre -> is_surrogate c = true ->
  forall pos,
    utf8_encode_from pos (pre ++ c :: post)
    = Raise (UnicodeEncodeError (pos + length pre)).
Proof.
  intros Hpre Hc. induction Hpre as [|x rest Hx _ IH]; intros pos;
    cbn [app utf8_encode_from length].
  - rewrite (surrogate_not_encoded c Hc). f_equal. f_equal. lia.
  - destruct (not_surrogate_encodes x Hx) as [l ->].
    rewrite IH. cbn [bind]. f_equal. f_equal. lia.
Qed.

Lemma utf8_encode_from_no_surrogate (s : str) : forall pos bs,
  utf8_encode_from pos s = Return bs ->
  Forall (fun c => is_surrogate c = false) s.
Proof.
  induction s as [|c rest IH]; intros pos bs H; [constructor|].
  cbn [utf8_encode_from] in H.
  destruct (utf8_encode_char c) as [l|] eqn:Ec; [|discriminate].
  apply bind_Return in H as (tl & Htl & _).
  constructor; [eapply encoded_not_surrogate; exact Ec | eapply IH; exact Htl].
Qed.

Lemma no_surrogate_encodes (s : str) :
  Forall (fun c => is_surrogate c = false) s ->
  forall pos, exists bs, utf8_encode_from pos s = Return bs.
Proof.
  induction 1 as [|c rest Hc _ IH]; intros pos; cbn [utf8_encode_from];
    [eauto|].
  destruct (not_surrogate_encodes c Hc) as [l ->].
  destruct (IH (S pos)) as [tl ->]. cbn [bind]. eauto.
Qed.

(** X11: a version string whose first surrogate code point stands at index
    n makes construction raise UnicodeEncodeError at position n; assigning
    such a string to [search_query] raises the same error and leaves the
    instance as it was. *)
Theorem construction_raises_at_first_surrogate (pre post : str) (c : Z) :
  Forall (fun x => is_surrogate x = false) pre ->
  is_surrogate c = true ->
  __init__ (pre ++ c :: post) = Raise (UnicodeEncodeError (length pre))
  /\ forall get self,
       call get (SetSearchQuery (pre ++ c :: post)) self
       = (Raise (UnicodeEncodeError (length pre)), self).
Proof.
  intros Hpre Hc.
  assert (E : set_search_query (pre ++ c :: post)
              = Raise (UnicodeEncodeError (length pre))).
  { unfold set_search_query. rewrite quote_plus_eq. unfold str_encode.
    rewrite (utf8_encode_from_surrogate pre post c Hpre Hc). reflexivity. }
  split; [exact E|]. intros get self. cbn [call]. rewrite E. reflexivity.
Qed.

Lemma construction_raises_at_first_surrogate_witness :
  __init__ (lit "Apache" ++ 0xDC80 :: lit " 2.4")
  = Raise (UnicodeEncodeError 6).
Proof.
  apply (construction_raises_at_first_surrogate (lit "Apache") (lit " 2.4") 0xDC80).
  - vm_compute lit. repeat (constructor; [reflexivity|]). constructor.
  - reflexivity.
Defined.

(** X12: construction succeeds exactly for the version strings that hold
    no surrogate code point. *)
Theorem construction_succeeds_iff (V : str) :
  (exists self, __init__ V = Return self)
  <-> Forall (fun c => is_surrogate c = false) V.
Proof.
  unfold __init__, set_search_query. rewrite quote_plus_eq. split.
  - intros [self H]. apply bind_Return in H as (quoted & H & _).
    apply bind_Return in H as (bs & H & _).
    eapply utf8_encode_from_no_surrogate. exact H.
  - intros H. unfold str_encode.
    destruct (no_surrogate_encodes V H 0%nat) as [bs ->]. cbn [bind]. eauto.
Qed.

(** ** The shape of the stored query *)

Lemma url_alphabet_ascii (ch : Z) :
  contains (_ALWAYS_SAFE ++ lit "+%") ch = true -> 0 <= ch < 0x80 /\ ch <> 32.
Proof.
  intros H. apply contains_In in H.
  assert (Hall : Forall (fun c => 0 <= c < 0x80 /\ c <> 32)
                   (_ALWAYS_SAFE ++ lit "+%")).
  { unfold _ALWAYS_SAFE. vm_compute app.
    repeat (constructor; [lia|]). constructor. }
  rewrite Forall_forall in Hall. apply Hall. apply list_elem_of_In. exact H.
Qed.

Lemma hex_digit_unreserved (q : Z) :
  0 <= q < 16 ->
  contains (_ALWAYS_SAFE ++ lit "+%")
    (nth (Z.to_nat q) (lit "0123456789ABCDEF") 0) = true.
Proof.
  intros Hq.
  assert (Hn : (Z.to_nat q < 16)%nat) by lia.
  revert Hn. generalize (Z.to_nat q) as n. intros n Hn.
  do 16 (destruct n as [|n]; [reflexivity|]). lia.
Qed.

Lemma quote_plus_byte_alphabet (b : Z) :
  is_byte b ->
  Forall (fun ch => contains (_ALWAYS_SAFE ++ lit "+%") ch = true)
    (quote_plus_byte b).
Proof.
  intros Hb. unfold is_byte in Hb. unfold quote_plus_byte.
  destruct (b =? 32); [repeat constructor|].
  destruct (contains _ALWAYS_SAFE b) eqn:Es.
  - repeat constructor. rewrite contains_app, Es. reflexivity.
  - unfold format_02X.
    repeat constructor; apply hex_digit_unreserved; zdm.
Qed.

(** X13: for a valid text the part of the stored query after the base URL
    is written with unreserved characters, [+] and [%] only, and the whole
    stored query is ASCII without a space (the space of the read-time query
    comes from the appended " exploit" alone). *)
Theorem stored_query_alphabet (V : str) (self : GoogleSitesFinder) :
  valid_text V -> __init__ V = Return self ->
  Forall (fun ch => contains (_ALWAYS_SAFE ++ lit "+%") ch = true)
    (query_portion self)
  /\ Forall (fun ch => 0 <= ch < 0x80 /\ ch <> 32) (_search_query self).
Proof.
  intros HV Hinit.
  destruct (init_stored V self Hinit) as (bs & Hbs & Hst).
  destruct (utf8_round_trip Strict V HV _ _ Hbs) as [Hbytes _].
  assert (Hq : Forall (fun ch => contains (_ALWAYS_SAFE ++ lit "+%") ch = true)
                 (concat (map quote_plus_byte bs))).
  { clear Hbs Hst. induction Hbytes as [|b rest Hb _ IH]; [constructor|].
    cbn [map concat]. apply Forall_app. split; [|exact IH].
    apply quote_plus_byte_alphabet. exact Hb. }
  split.
  - unfold query_portion. rewrite Hst, drop_app_length. exact Hq.
  - rewrite Hst. apply Forall_app. split.
    + unfold base_query. vm_compute lit.
      repeat (constructor; [lia|]). constructor.
    + eapply Forall_impl; [exact Hq|]. apply url_alphabet_ascii.
Qed.

Lemma stored_query_alphabet_witness :
  Forall (fun ch => 0 <= ch < 0x80 /\ ch <> 32)
    (lit "https://www.google.co.uk/search?q=%C3%A9+%2B").
Proof.
  apply (stored_query_alphabet [0xE9; 0x20; 0x2B]
           {| _search_query := lit "https://www.google.co.uk/search?q=%C3%A9+%2B" |}).
  - unfold valid_text.
    repeat (constructor; [split; [unfold is_code_point; lia | reflexivity]|]).
    constructor.
  - vm_compute. reflexivity.
Defined.

Lemma utf8_encode_from_ascii (s : str) :
  Forall (fun c => c < 0x80) s ->
  forall pos, utf8_encode_from pos s = Return s.
Proof.
  induction 1 as [|c rest Hc _ IH]; intros pos; [reflexivity|].
  cbn [utf8_encode_from]. unfold utf8_encode_char.
  rewrite (proj2 (Z.ltb_lt c 0x80) Hc), IH. reflexivity.
Qed.

(** X14: a version string made of unreserved characters (ASCII letters,
    digits, [_], [.], [-], [~]) is stored verbatim after the base URL. *)
Theorem unreserved_stored_verbatim (V : str) :
  Forall (fun c => contains _ALWAYS_SAFE c = true) V ->
  __init__ V = Return {| _search_query := base_query ++ V |}.
Proof.
  intros HV. unfold __init__, set_search_query. rewrite quote_plus_eq.
  unfold str_encode. rewrite utf8_encode_from_ascii.
  - cbn [bind]. do 3 f_equal.
    induction HV as [|c rest Hc _ IH]; [reflexivity|].
    cbn [map concat]. rewrite IH. unfold quote_plus_byte. rewrite Hc.
    apply always_safe_ascii in Hc.
    rewrite (proj2 (Z.eqb_neq c 32)) by tauto. reflexivity.
  - eapply Forall_impl; [exact HV|]. intros c Hc.
    apply always_safe_ascii in Hc. lia.
Qed.

Lemma unreserved_stored_verbatim_witness :
  __init__ (lit "nginx-1.18.0_beta~2")
  = Return {| _search_query := base_query ++ lit "nginx-1.18.0_beta~2" |}.
Proof.
  apply unreserved_stored_verbatim.
  vm_compute lit. repeat (constructor; [reflexivity|]). constructor.
Defined.

(** X15: distinct valid texts never share a stored query: two constructions
    that store the same query were given the same version string. *)
Theorem stored_query_injective (V1 V2 : str) (self1 self2 : GoogleSitesFinder) :
  valid_text V1 -> valid_text V2 ->
  __init__ V1 = Return self1 -> __init__ V2 = Return self2 ->
  _search_query self1 = _search_query self2 ->
  V1 = V2.
Proof.
  intros HV1 HV2 H1 H2 E.
  destruct (init_stored V1 self1 H1) as (bs1 & Hb1 & Hs1).
  destruct (init_stored V2 self2 H2) as (bs2 & Hb2 & Hs2).
  rewrite Hs1, Hs2 in E. apply app_inv_head in E.
  pose proof (unquote_plus_quote_plus V1 bs1 HV1 Hb1) as R1.
  pose proof (unquote_plus_quote_plus V2 bs2 HV2 Hb2) as R2.
  rewrite E in R1. congruence.
Qed.

Lemma stored_query_injective_witness :
  lit "a b" = lit "a b".
Proof.
  apply (stored_query_injective (lit "a b") (lit "a b")
           {| _search_query := lit "https://www.google.co.uk/search?q=a+b" |}
           {| _search_query := lit "https://www.google.co.uk/search?q=a+b" |}).
  - unfold valid_text. vm_compute lit.
    repeat (constructor; [split; [unfold is_code_point; lia | reflexivity]|]).
    constructor.
  - unfold valid_text. vm_compute lit.
    repeat (constructor; [split; [unfold is_code_point; lia | reflexivity]|]).
    constructor.
  - vm_compute. reflexivity.
  - vm_compute. reflexivity.
  - reflexivity.
Defined.

Lemma utf8_encode_char_length (c : Z) (bs : bytes) :
  utf8_encode_char c = Some bs -> (1 <= length bs <= 4)%nat.
Proof.
  unfold utf8_encode_char. intros H.
  repeat match type of H with
         | (if ?b then _ else _) = _ => destruct b
         end;
    try discriminate; injection H as <-; simpl; lia.
Qed.

Lemma quote_plus_byte_length (b : Z) :
  (1 <= length (quote_plus_byte b) <= 3)%nat.
Proof.
  unfold quote_plus_byte, format_02X.
  destruct (b =? 32); [simpl; lia|].
  destruct (contains _ALWAYS_SAFE b); simpl; lia.
Qed.

Lemma utf8_encode_from_length (s : str) : forall pos bs,
  utf8_encode_from pos s = Return bs ->
  (length s <= length bs <= 4 * length s)%nat.
Proof.
  induction s as [|c rest IH]; intros pos bs H; cbn [utf8_encode_from] in H.
  - injection H as <-. simpl. lia.
  - destruct (utf8_encode_char c) as [l|] eqn:Ec; [|discriminate].
    apply bind_Return in H as (tl & Htl & H). injection H as <-.
    apply utf8_encode_char_length in Ec. apply IH in Htl.
    rewrite length_app. cbn [length]. lia.
Qed.

Lemma quoted_length (bs : bytes) :
  (length bs <= length (concat (map quote_plus_byte bs)) <= 3 * length bs)%nat.
Proof.
  induction bs as [|b rest IH]; [simpl; lia|].
  cbn [map concat]. rewrite length_app. cbn [length].
  pose proof (quote_plus_byte_length b). lia.
Qed.

(** X16: the part of the stored query after the base URL is at least as
    long as the version string and at most twelve times as long (at most
    four UTF-8 bytes per character, at most three characters per byte). *)
Theorem stored_query_length (V : str) (self : GoogleSitesFinder) :
  __init__ V = Return self ->
  (length V <= length (query_portion self) <= 12 * length V)%nat
  /\ length (_search_query self)
     = (length base_query + length (query_portion self))%nat.
Proof.
  intros Hinit. destruct (init_stored V self Hinit) as (bs & Hbs & Hst).
  unfold query_portion. rewrite Hst, drop_app_length, length_app.
  split; [|reflexivity].
  apply utf8_encode_from_length in Hbs.
  pose proof (quoted_length bs). lia.
Qed.

Lemma stored_query_length_witness :
  (length [0x1F600; 0x41]%Z
   <= length (query_portion
                {| _search_query :=
                     lit "https://www.google.co.uk/search?q=%F0%9F%98%80A" |})
   <= 12 * length [0x1F600; 0x41]%Z)%nat.
Proof.
  apply (stored_query_length [0x1F600; 0x41]
           {| _search_query := lit "https://www.google.co.uk/search?q=%F0%9F%98%80A" |}).
  vm_compute. reflexivity.
Defined.

Lemma quote_plus_byte_plus (b : Z) :
  count_occ Z.eq_dec (quote_plus_byte b) 43 = if b =? 32 then 1%nat else 0%nat.
Proof.
  unfold quote_plus_byte. destruct (b =? 32); [reflexivity|].
  apply count_occ_not_In.
  destruct (contains _ALWAYS_SAFE b) eqn:Es.
  - apply always_safe_ascii in Es. intros [H | []]. lia.
  - unfold format_02X.
    pose proof (hex_digit_ascii (Z.to_nat (b / 16))) as H1.
    pose proof (hex_digit_ascii (Z.to_nat (b mod 16))) as H2.
    cbv zeta in H1, H2.
    intros [H | [H | [H | []]]]; [discriminate | tauto | tauto].
Qed.

Lemma utf8_encode_char_space_count (c : Z) (bs : bytes) :
  utf8_encode_char c = Some bs ->
  count_occ Z.eq_dec bs 32 = if c =? 32 then 1%nat else 0%nat.
Proof.
  intros H. destruct (Z.eqb_spec c 32) as [-> | Hne].
  - vm_compute in H. injection H as <-. reflexivity.
  - apply count_occ_not_In. intros Hin. apply Hne.
    eapply utf8_encode_char_space; eassumption.
Qed.

Lemma utf8_encode_from_space_count (s : str) : forall pos bs,
  utf8_encode_from pos s = Return bs ->
  count_occ Z.eq_dec bs 32 = count_occ Z.eq_dec s 32.
Proof.
  induction s as [|c rest IH]; intros pos bs H; cbn [utf8_encode_from] in H.
  - injection H as <-. reflexivity.
  - destruct (utf8_encode_char c) as [l|] eqn:Ec; [|discriminate].
    apply bind_Return in H as (tl & Htl & H). injection H as <-.
    rewrite count_occ_app, (utf8_encode_char_space_count c l Ec), (IH _ _ Htl).
    destruct (Z.eqb_spec c 32) as [-> | Hne].
    + rewrite count_occ_cons_eq by reflexivity. reflexivity.
    + rewrite count_occ_cons_neq by exact Hne. reflexivity.
Qed.

Lemma quoted_plus_count (bs : bytes) :
  count_occ Z.eq_dec (concat (map quote_plus_byte bs)) 43
  = count_occ Z.eq_dec bs 32.
Proof.
  induction bs as [|b rest IH]; [reflexivity|].
  cbn [map concat]. rewrite count_occ_app, quote_plus_byte_plus, IH.
  destruct (Z.eqb_spec b 32) as [-> | Hne].
  - rewrite count_occ_cons_eq by reflexivity. reflexivity.
  - rewrite count_occ_cons_neq by exact Hne. reflexivity.
Qed.

(** X17: the stored query holds exactly one [+] after the base URL for each
    space of the version string: every space becomes a [+], and no other
    character, a literal [+] included, produces one. *)
Theorem stored_query_plus_count (V : str) (self : GoogleSitesFinder) :
  __init__ V = Return self ->
  count_occ Z.eq_dec (query_portion self) 43 = count_occ Z.eq_dec V 32.
Proof.
  intros Hinit. destruct (init_stored V self Hinit) as (bs & Hbs & Hst).
  unfold query_portion. rewrite Hst, drop_app_length, quoted_plus_count.
  eapply utf8_encode_from_space_count. exact Hbs.
Qed.

Lemma stored_query_plus_count_witness :
  count_occ Z.eq_dec
    (query_portion
       {| _search_query := lit "https://www.google.co.uk/search?q=a+%2B+b" |})
    43
  = count_occ Z.eq_dec (lit "a + b") 32.
Proof.
  apply stored_query_plus_count. vm_compute. reflexivity.
Defined.

(** ** The stored query, byte by byte *)

Lemma encoded_text_valid (V : str) (bs : bytes) :
  Forall is_code_point V -> str_encode V = Return bs -> valid_text V.
Proof.
  intros Hcp Henc. unfold valid_text, is_scalar.
  apply utf8_encode_from_no_surrogate in Henc.
  apply Forall_forall. intros c Hc. split.
  - rewrite Forall_forall in Hcp. apply Hcp. exact Hc.
  - rewrite Forall_forall in Henc. apply Henc. exact Hc.
Qed.

Lemma hex_digit_In (q : Z) :
  0 <= q < 16 ->
  In (nth (Z.to_nat q) (lit "0123456789ABCDEF") 0) (lit "0123456789ABCDEF").
Proof. intros Hq. apply nth_In. change (Z.to_nat q < 16)%nat. lia. Qed.

(** What [quote_plus] writes for one byte, stated without the quoter: by
    the byte's class, and for an escape by the upper-case hex digits that
    the table [_hextobyte] maps back to the byte. *)
Lemma quote_plus_byte_classes (b : Z) :
  is_byte b ->
  (b = 32 /\ quote_plus_byte b = lit "+")
  \/ (In b (lit "ABCDEFGHIJKLMNOPQRSTUVWXYZabcdefghijklmnopqrstuvwxyz0123456789_.-~")
      /\ quote_plus_byte b = [b])
  \/ (b <> 32
      /\ ~ In b (lit "ABCDEFGHIJKLMNOPQRSTUVWXYZabcdefghijklmnopqrstuvwxyz0123456789_.-~")
      /\ exists h1 h2,
           quote_plus_byte b = lit "%" ++ [h1; h2]
           /\ In h1 (lit "0123456789ABCDEF")
           /\ In h2 (lit "0123456789ABCDEF")
           /\ hex_value h1 = Some (b / 16)
           /\ hex_value h2 = Some (b mod 16)
           /\ _hextobyte [h1; h2] = Some b).
Proof.
  intros Hb. unfold is_byte in Hb. unfold quote_plus_byte.
  destruct (Z.eqb_spec b 32) as [-> | Hne]; [left; split; reflexivity|].
  destruct (contains _ALWAYS_SAFE b) eqn:Es.
  - right; left. split; [|reflexivity]. apply contains_In. exact Es.
  - right; right. split; [exact Hne|]. split.
    + intros Hin. apply contains_In in Hin. unfold _ALWAYS_SAFE in Es.
      congruence.
    + unfold format_02X. eexists _, _. split; [reflexivity|].
      split; [apply hex_digit_In; zdm|]. split; [apply hex_digit_In; zdm|].
      split; [apply hex_digit_value; zdm|]. split; [apply hex_digit_value; zdm|].
      unfold _hextobyte. rewrite !hex_digit_value by zdm. f_equal. zdm.
Qed.

(** C1: an instance built from V stores the base URL followed by
    quote_plus(V), which is the UTF-8 encoding of V (the strict decoder
    returns V from it) with each byte written once: a space as [+], an
    unreserved byte (ASCII letter, digit, [_], [.], [-], [~]) as itself, and
    every other byte escaped as [%] and the two upper-case hex digits of its
    value; unquote_plus gives V back from the stored part.  The accessor
    returns the stored string followed by the literal " exploit", the same
    value at every read.  For "OpenSSH 7.2" these are the two strings of
    the example; "a&b c/d" is stored as "a%26b+c%2Fd" and the two
    characters U+00E9 U+20AC as "%C3%A9%E2%82%AC". *)
Theorem search_query_construction (V : str) (self : GoogleSitesFinder) :
  __init__ V = Return self ->
  exists bs,
    str_encode V = Return bs
    /\ quote_plus V = Return (concat (map quote_plus_byte bs))
    /\ _search_query self = base_query ++ concat (map quote_plus_byte bs)
    /\ search_query self
       = lit "https://www.google.co.uk/search?q="
         ++ concat (map quote_plus_byte bs) ++ lit " exploit"
    /\ (forall get,
          fst (call get GetSearchQuery self) = Return (VStr (search_query self))
          /\ fst (call get GetSearchQuery (snd (call get GetSearchQuery self)))
             = fst (call get GetSearchQuery self))
    /\ (Forall is_code_point V ->
        utf8_decode Strict bs = Return V
        /\ unquote_plus (query_portion self) = Return V
        /\ Forall
             (fun b =>
                0 <= b < 256
                /\ ((b = 32 /\ quote_plus_byte b = lit "+")
                    \/ (In b (lit "ABCDEFGHIJKLMNOPQRSTUVWXYZabcdefghijklmnopqrstuvwxyz0123456789_.-~")
                        /\ quote_plus_byte b = [b])
                    \/ (b <> 32
                        /\ ~ In b (lit "ABCDEFGHIJKLMNOPQRSTUVWXYZabcdefghijklmnopqrstuvwxyz0123456789_.-~")
                        /\ exists h1 h2,
                             quote_plus_byte b = lit "%" ++ [h1; h2]
                             /\ In h1 (lit "0123456789ABCDEF")
                             /\ In h2 (lit "0123456789ABCDEF")
                             /\ hex_value h1 = Some (b / 16)
                             /\ hex_value h2 = Some (b mod 16)
                             /\ _hextobyte [h1; h2] = Some b)))
             bs)
    /\ (V = lit "OpenSSH 7.2" ->
        _search_query self = lit "https://www.google.co.uk/search?q=OpenSSH+7.2"
        /\ search_query self
           = lit "https://www.google.co.uk/search?q=OpenSSH+7.2 exploit")
    /\ (V = lit "a&b c/d" ->
        _search_query self
        = lit "https://www.google.co.uk/search?q=a%26b+c%2Fd"
        /\ search_query self
           = lit "https://www.google.co.uk/search?q=a%26b+c%2Fd exploit")
    /\ (V = [0xE9; 0x20AC] ->
        bs = [0xC3; 0xA9; 0xE2; 0x82; 0xAC]
        /\ _search_query self
           = lit "https://www.google.co.uk/search?q=%C3%A9%E2%82%AC").
Proof.
  intros Hinit. destruct (init_stored V self Hinit) as (bs & Hbs & Hst).
  exists bs. split; [exact Hbs|]. split.
  { rewrite quote_plus_eq, Hbs. reflexivity. }
  split; [exact Hst|]. split.
  { unfold search_query. rewrite Hst, <- app_assoc. reflexivity. }
  split.
  { intros get. split; reflexivity. }
  split.
  { intros Hcp. pose proof (encoded_text_valid V bs Hcp Hbs) as HV.
    destruct (utf8_round_trip Strict V HV _ _ Hbs) as [Hbytes Hdec].
    split; [exact Hdec|]. split.
    - unfold query_portion. rewrite Hst, drop_app_length.
      apply unquote_plus_quote_plus; assumption.
    - eapply Forall_impl; [exact Hbytes|]. intros b Hb.
      split; [exact Hb | apply quote_plus_byte_classes; exact Hb]. }
  split; [|split].
  - intros ->. vm_compute in Hinit. injection Hinit as <-.
    split; vm_compute; reflexivity.
  - intros ->. vm_compute in Hinit. injection Hinit as <-.
    split; vm_compute; reflexivity.
  - intros ->. vm_compute in Hinit, Hbs. injection Hinit as <-.
    injection Hbs as <-. split; vm_compute; reflexivity.
Qed.

Lemma search_query_construction_witness :
  search_query
    {| _search_query := lit "https://www.google.co.uk/search?q=a%26b+c%2Fd" |}
  = lit "https://www.google.co.uk/search?q=a%26b+c%2Fd exploit".
Proof.
  assert (Hinit : __init__ (lit "a&b c/d")
                  = Return {| _search_query :=
                                lit "https://www.google.co.uk/search?q=a%26b+c%2Fd" |})
    by (vm_compute; reflexivity).
  destruct (search_query_construction _ _ Hinit)
    as (bs & _ & _ & _ & _ & _ & _ & _ & Hex & _).
  apply Hex. reflexivity.
Defined.
